(** * A shallow embedding of the stream layer of kcp-go ([stream.go])

    The per-stream state of [UDPStream] is a record; each goroutine that runs
    a stream method (Write, Read, Close, CloseWrite, Dial, Accept) is a thread
    whose program counter is a [proc]; [tstep] is one atomic step of such a
    thread and [sys_step] interleaves threads and the passing of time.  Go's
    [select] picks any ready case, or the default when none is ready
    ([go_select]).  [sync.Once] guards are booleans that only go from [false]
    to [true]; a Go channel that is closed once is a boolean ("closed"), a
    buffered channel of capacity one used as a coalesced notification is a
    boolean ("slot full").

    The ARQ engine (kcp.go) is not part of [stream.go]; the few operations of
    it that the stream layer calls are modelled from the specification in
    the section [ARQ] below. *)

From Stdlib Require Import List ZArith NArith Lia Bool Permutation.
From Stdlib Require Import Strings.Byte.
Import ListNotations.
Open Scope Z_scope.

(** ** Basic Go data *)

(** [time.Time] as nanoseconds since Go's zero instant, so that the zero
    value of [time.Time] is [0]; [time.Duration] in nanoseconds. *)
Definition Time := Z.
Definition Duration := Z.
Definition IsZero (t : Time) : bool := Z.eqb t 0.
(** [t.After(u)] *)
Definition After (t u : Time) : bool := Z.ltb u t.
Definition Second : Duration := 1000000000.

(** Errors returned by the stream layer ([io] errors and the package's). *)
Inductive err :=
| ErrClosedPipe        (* io.ErrClosedPipe *)
| ErrUnexpectedEOF     (* io.ErrUnexpectedEOF *)
| EOF                  (* io.EOF *)
| errTimeout
| errTunnelPick
| errStreamFlag
| errSynInfo
| errDialParam
| errRemoteStream
| ErrAddr (msg : list byte).  (* an error of net.ResolveUDPAddr *)

(** The command tags. *)
Definition PSH : byte := x31.  (* '1' *)
Definition SYN : byte := x32.  (* '2' *)
Definition FIN : byte := x33.  (* '3' *)
Definition HRT : byte := x34.  (* '4' *)
Definition RST : byte := x35.  (* '5' *)

Definition gouuid_Size : nat := 16.
Definition IKCP_OVERHEAD : nat := 24.
Definition mtuLimit : nat := 1500.
Definition CleanTimeout : Duration := 5 * Second.
Definition DefaultParallelXmit : N := 5.
Definition DefaultParallelTime : Duration := 60 * Second.

(** uint64 counters of [DefaultSnmp], updated with [atomic.AddUint64]. *)
Definition u64_add (x y : Z) : Z := (x + y) mod 2 ^ 64.
Record Snmp := mkSnmp { BytesSent : Z; BytesReceived : Z; CurrEstab : Z }.

(** A tunnel is identified by its index in the transport; the address
    produced by [net.ResolveUDPAddr]. *)
Definition tunnel := nat.
Record UDPAddr := mkUDPAddr { IP : list byte; Port : Z }.

(** [ipv4.Message]: the buffers of the datagram and its destination. *)
Record Message := mkMessage { Buffers : list (list byte); Addr : UDPAddr }.

(** Go's [copy(dst, src)]: the first [min (len dst) (len src)] bytes of
    [dst] are overwritten by those of [src]. *)
Definition go_copy {A} (dst src : list A) : list A :=
  let n := Nat.min (length dst) (length src) in
  firstn n src ++ skipn n dst.

(** [l[i] = v] on a slice, [None] when [i] is out of range (a panic). *)
Fixpoint set_nth {A} (i : nat) (v : A) (l : list A) : option (list A) :=
  match l, i with
  | [], _ => None
  | _ :: t, O => Some (v :: t)
  | x :: t, S j => option_map (cons x) (set_nth j v t)
  end.

(** [strings.Split(s, sep)] for a one-byte separator: never empty, and
    [strings.Split("", " ") = [""]]. *)
Fixpoint split_aux (sep : byte) (cur : list byte) (l : list byte) : list (list byte) :=
  match l with
  | [] => [rev cur]
  | c :: t => if Byte.eqb c sep then rev cur :: split_aux sep [] t
              else split_aux sep (c :: cur) t
  end.
Definition strings_Split (s : list byte) (sep : byte) : list (list byte) :=
  split_aux sep [] s.

(** [strings.Join(elems, sep)]. *)
Fixpoint strings_Join (elems : list (list byte)) (sep : byte) : list byte :=
  match elems with
  | [] => []
  | [e] => e
  | e :: t => e ++ sep :: strings_Join t sep
  end.

(** Go's [select]: a ready case ([true]) may be chosen, whichever; the
    default is taken only when no case is ready. *)
Inductive go_select {A : Type} : list (bool * A) -> option A -> A -> Prop :=
| select_case cs d a : In (true, a) cs -> go_select cs d a
| select_default cs a :
    forallb (fun c => negb (fst c)) cs = true -> go_select cs (Some a) a.

(** ** The ARQ engine, as the stream layer uses it *)
Section ARQ.

(** Modelled from the spec: the ARQ engine of kcp.go (section 4.1 of the
    specification).  Only what the stream layer observes is kept: the
    segment size, the two windows, the queue of submitted payloads, the
    in-flight segments with their transmission count, and the queue of
    assembled received messages. *)
Record KCP := mkKCP {
  mss : nat;
  snd_wnd : nat;
  rmt_wnd : nat;
  snd_queue : list (list byte);
  snd_buf : list (list byte * nat);
  rcv_queue : list (list byte)
}.

(** Modelled from the spec: [waitsnd()], unacknowledged plus unsent segments. *)
Definition WaitSnd (k : KCP) : nat := length (snd_buf k) + length (snd_queue k).

(** Modelled from the spec: [submit(bytes)] enqueues a payload (the stream
    layer submits at most [mss] bytes at a time, one segment). *)
Definition Send (k : KCP) (buf : list byte) : KCP :=
  mkKCP (mss k) (snd_wnd k) (rmt_wnd k) (snd_queue k ++ [buf]) (snd_buf k) (rcv_queue k).

(** Modelled from the spec: size of the next assembled message, or -1. *)
Definition PeekSize (k : KCP) : Z :=
  match rcv_queue k with
  | m :: _ => Z.of_nat (length m)
  | [] => -1
  end.

(** Modelled from the spec: receive the next assembled message. *)
Definition Recv (k : KCP) : list byte * KCP :=
  match rcv_queue k with
  | m :: q => (m, mkKCP (mss k) (snd_wnd k) (rmt_wnd k) (snd_queue k) (snd_buf k) q)
  | [] => ([], k)
  end.

(** Modelled from the spec: release the send buffers. *)
Definition ReleaseTX (k : KCP) : KCP :=
  mkKCP (mss k) (snd_wnd k) (rmt_wnd k) [] [] (rcv_queue k).

(** Modelled from the spec: [flush] moves queued payloads into flight while
    both windows permit and emits each as a datagram (reserved UUID space,
    ARQ header, payload) with its transmission count.  Retransmission timers
    and header fields are not modelled. *)
Fixpoint kcp_flush_aux (fuel : nat) (k : KCP) (out : list (list byte * nat))
  : KCP * list (list byte * nat) :=
  match fuel, snd_queue k with
  | S f, seg :: q =>
      if Nat.ltb (length (snd_buf k)) (Nat.min (snd_wnd k) (rmt_wnd k)) then
        kcp_flush_aux f
          (mkKCP (mss k) (snd_wnd k) (rmt_wnd k) q (snd_buf k ++ [(seg, 1%nat)]) (rcv_queue k))
          (out ++ [(repeat x00 (gouuid_Size + IKCP_OVERHEAD) ++ seg, 1%nat)])
      else (k, out)
  | _, _ => (k, out)
  end.
Definition kcp_flush (k : KCP) : KCP * list (list byte * nat) :=
  kcp_flush_aux (length (snd_queue k)) k [].

End ARQ.

(** ** The stream *)
Record UDPStream := mkUDPStream {
  uuid : list byte;
  sel : list (list byte) -> list tunnel;
  kcp : KCP;
  tunnels : list tunnel;
  remotes : list UDPAddr;
  accepted : bool;
  bufptr : list byte;
  recvcap : nat;  (* cap(s.recvbuf); only the capacity matters *)
  rd : Time;
  wd : Time;
  writeDelay : bool;
  recvSynOnce : bool;
  sendFinOnce : bool;
  chSendFinEvent : bool;
  recvFinOnce : bool;
  chRecvFinEvent : bool;
  rstOnce : bool;
  chRst : bool;
  closeOnce : bool;
  chClose : bool;
  chDialEvent : bool;
  chReadEvent : bool;
  chWriteEvent : bool;
  chClean : option Time;
  msgss : list (list Message);
  parallelXmit : N;
  parallelTime : Duration;
  parallelExpire : Time;
  now : Time;
  snmp : Snmp;
  wire : list (tunnel * list Message)
}.

Definition set_uuid (s : UDPStream) (v : list byte) : UDPStream :=
  {| uuid := v; sel := sel s; kcp := kcp s; tunnels := tunnels s; remotes := remotes s; accepted := accepted s; bufptr := bufptr s; recvcap := recvcap s; rd := rd s; wd := wd s; writeDelay := writeDelay s; recvSynOnce := recvSynOnce s; sendFinOnce := sendFinOnce s; chSendFinEvent := chSendFinEvent s; recvFinOnce := recvFinOnce s; chRecvFinEvent := chRecvFinEvent s; rstOnce := rstOnce s; chRst := chRst s; closeOnce := closeOnce s; chClose := chClose s; chDialEvent := chDialEvent s; chReadEvent := chReadEvent s; chWriteEvent := chWriteEvent s; chClean := chClean s; msgss := msgss s; parallelXmit := parallelXmit s; parallelTime := parallelTime s; parallelExpire := parallelExpire s; now := now s; snmp := snmp s; wire := wire s |}.

Definition set_sel (s : UDPStream) (v : list (list byte) -> list tunnel) : UDPStream :=
  {| uuid := uuid s; sel := v; kcp := kcp s; tunnels := tunnels s; remotes := remotes s; accepted := accepted s; bufptr := bufptr s; recvcap := recvcap s; rd := rd s; wd := wd s; writeDelay := writeDelay s; recvSynOnce := recvSynOnce s; sendFinOnce := sendFinOnce s; chSendFinEvent := chSendFinEvent s; recvFinOnce := recvFinOnce s; chRecvFinEvent := chRecvFinEvent s; rstOnce := rstOnce s; chRst := chRst s; closeOnce := closeOnce s; chClose := chClose s; chDialEvent := chDialEvent s; chReadEvent := chReadEvent s; chWriteEvent := chWriteEvent s; chClean := chClean s; msgss := msgss s; parallelXmit := parallelXmit s; parallelTime := parallelTime s; parallelExpire := parallelExpire s; now := now s; snmp := snmp s; wire := wire s |}.

Definition set_kcp (s : UDPStream) (v : KCP) : UDPStream :=
  {| uuid := uuid s; sel := sel s; kcp := v; tunnels := tunnels s; remotes := remotes s; accepted := accepted s; bufptr := bufptr s; recvcap := recvcap s; rd := rd s; wd := wd s; writeDelay := writeDelay s; recvSynOnce := recvSynOnce s; sendFinOnce := sendFinOnce s; chSendFinEvent := chSendFinEvent s; recvFinOnce := recvFinOnce s; chRecvFinEvent := chRecvFinEvent s; rstOnce := rstOnce s; chRst := chRst s; closeOnce := closeOnce s; chClose := chClose s; chDialEvent := chDialEvent s; chReadEvent := chReadEvent s; chWriteEvent := chWriteEvent s; chClean := chClean s; msgss := msgss s; parallelXmit := parallelXmit s; parallelTime := parallelTime s; parallelExpire := parallelExpire s; now := now s; snmp := snmp s; wire := wire s |}.

Definition set_tunnels (s : UDPStream) (v : list tunnel) : UDPStream :=
  {| uuid := uuid s; sel := sel s; kcp := kcp s; tunnels := v; remotes := remotes s; accepted := accepted s; bufptr := bufptr s; recvcap := recvcap s; rd := rd s; wd := wd s; writeDelay := writeDelay s; recvSynOnce := recvSynOnce s; sendFinOnce := sendFinOnce s; chSendFinEvent := chSendFinEvent s; recvFinOnce := recvFinOnce s; chRecvFinEvent := chRecvFinEvent s; rstOnce := rstOnce s; chRst := chRst s; closeOnce := closeOnce s; chClose := chClose s; chDialEvent := chDialEvent s; chReadEvent := chReadEvent s; chWriteEvent := chWriteEvent s; chClean := chClean s; msgss := msgss s; parallelXmit := parallelXmit s; parallelTime := parallelTime s; parallelExpire := parallelExpire s; now := now s; snmp := snmp s; wire := wire s |}.

Definition set_remotes (s : UDPStream) (v : list UDPAddr) : UDPStream :=
  {| uuid := uuid s; sel := sel s; kcp := kcp s; tunnels := tunnels s; remotes := v; accepted := accepted s; bufptr := bufptr s; recvcap := recvcap s; rd := rd s; wd := wd s; writeDelay := writeDelay s; recvSynOnce := recvSynOnce s; sendFinOnce := sendFinOnce s; chSendFinEvent := chSendFinEvent s; recvFinOnce := recvFinOnce s; chRecvFinEvent := chRecvFinEvent s; rstOnce := rstOnce s; chRst := chRst s; closeOnce := closeOnce s; chClose := chClose s; chDialEvent := chDialEvent s; chReadEvent := chReadEvent s; chWriteEvent := chWriteEvent s; chClean := chClean s; msgss := msgss s; parallelXmit := parallelXmit s; parallelTime := parallelTime s; parallelExpire := parallelExpire s; now := now s; snmp := snmp s; wire := wire s |}.

Definition set_accepted (s : UDPStream) (v : bool) : UDPStream :=
  {| uuid := uuid s; sel := sel s; kcp := kcp s; tunnels := tunnels s; remotes := remotes s; accepted := v; bufptr := bufptr s; recvcap := recvcap s; rd := rd s; wd := wd s; writeDelay := writeDelay s; recvSynOnce := recvSynOnce s; sendFinOnce := sendFinOnce s; chSendFinEvent := chSendFinEvent s; recvFinOnce := recvFinOnce s; chRecvFinEvent := chRecvFinEvent s; rstOnce := rstOnce s; chRst := chRst s; closeOnce := closeOnce s; chClose := chClose s; chDialEvent := chDialEvent s; chReadEvent := chReadEvent s; chWriteEvent := chWriteEvent s; chClean := chClean s; msgss := msgss s; parallelXmit := parallelXmit s; parallelTime := parallelTime s; parallelExpire := parallelExpire s; now := now s; snmp := snmp s; wire := wire s |}.

Definition set_bufptr (s : UDPStream) (v : list byte) : UDPStream :=
  {| uuid := uuid s; sel := sel s; kcp := kcp s; tunnels := tunnels s; remotes := remotes s; accepted := accepted s; bufptr := v; recvcap := recvcap s; rd := rd s; wd := wd s; writeDelay := writeDelay s; recvSynOnce := recvSynOnce s; sendFinOnce := sendFinOnce s; chSendFinEvent := chSendFinEvent s; recvFinOnce := recvFinOnce s; chRecvFinEvent := chRecvFinEvent s; rstOnce := rstOnce s; chRst := chRst s; closeOnce := closeOnce s; chClose := chClose s; chDialEvent := chDialEvent s; chReadEvent := chReadEvent s; chWriteEvent := chWriteEvent s; chClean := chClean s; msgss := msgss s; parallelXmit := parallelXmit s; parallelTime := parallelTime s; parallelExpire := parallelExpire s; now := now s; snmp := snmp s; wire := wire s |}.

Definition set_recvcap (s : UDPStream) (v : nat) : UDPStream :=
  {| uuid := uuid s; sel := sel s; kcp := kcp s; tunnels := tunnels s; remotes := remotes s; accepted := accepted s; bufptr := bufptr s; recvcap := v; rd := rd s; wd := wd s; writeDelay := writeDelay s; recvSynOnce := recvSynOnce s; sendFinOnce := sendFinOnce s; chSendFinEvent := chSendFinEvent s; recvFinOnce := recvFinOnce s; chRecvFinEvent := chRecvFinEvent s; rstOnce := rstOnce s; chRst := chRst s; closeOnce := closeOnce s; chClose := chClose s; chDialEvent := chDialEvent s; chReadEvent := chReadEvent s; chWriteEvent := chWriteEvent s; chClean := chClean s; msgss := msgss s; parallelXmit := parallelXmit s; parallelTime := parallelTime s; parallelExpire := parallelExpire s; now := now s; snmp := snmp s; wire := wire s |}.

Definition set_rd (s : UDPStream) (v : Time) : UDPStream :=
  {| uuid := uuid s; sel := sel s; kcp := kcp s; tunnels := tunnels s; remotes := remotes s; accepted := accepted s; bufptr := bufptr s; recvcap := recvcap s; rd := v; wd := wd s; writeDelay := writeDelay s; recvSynOnce := recvSynOnce s; sendFinOnce := sendFinOnce s; chSendFinEvent := chSendFinEvent s; recvFinOnce := recvFinOnce s; chRecvFinEvent := chRecvFinEvent s; rstOnce := rstOnce s; chRst := chRst s; closeOnce := closeOnce s; chClose := chClose s; chDialEvent := chDialEvent s; chReadEvent := chReadEvent s; chWriteEvent := chWriteEvent s; chClean := chClean s; msgss := msgss s; parallelXmit := parallelXmit s; parallelTime := parallelTime s; parallelExpire := parallelExpire s; now := now s; snmp := snmp s; wire := wire s |}.

Definition set_wd (s : UDPStream) (v : Time) : UDPStream :=
  {| uuid := uuid s; sel := sel s; kcp := kcp s; tunnels := tunnels s; remotes := remotes s; accepted := accepted s; bufptr := bufptr s; recvcap := recvcap s; rd := rd s; wd := v; writeDelay := writeDelay s; recvSynOnce := recvSynOnce s; sendFinOnce := sendFinOnce s; chSendFinEvent := chSendFinEvent s; recvFinOnce := recvFinOnce s; chRecvFinEvent := chRecvFinEvent s; rstOnce := rstOnce s; chRst := chRst s; closeOnce := closeOnce s; chClose := chClose s; chDialEvent := chDialEvent s; chReadEvent := chReadEvent s; chWriteEvent := chWriteEvent s; chClean := chClean s; msgss := msgss s; parallelXmit := parallelXmit s; parallelTime := parallelTime s; parallelExpire := parallelExpire s; now := now s; snmp := snmp s; wire := wire s |}.

Definition set_writeDelay (s : UDPStream) (v : bool) : UDPStream :=
  {| uuid := uuid s; sel := sel s; kcp := kcp s; tunnels := tunnels s; remotes := remotes s; accepted := accepted s; bufptr := bufptr s; recvcap := recvcap s; rd := rd s; wd := wd s; writeDelay := v; recvSynOnce := recvSynOnce s; sendFinOnce := sendFinOnce s; chSendFinEvent := chSendFinEvent s; recvFinOnce := recvFinOnce s; chRecvFinEvent := chRecvFinEvent s; rstOnce := rstOnce s; chRst := chRst s; closeOnce := closeOnce s; chClose := chClose s; chDialEvent := chDialEvent s; chReadEvent := chReadEvent s; chWriteEvent := chWriteEvent s; chClean := chClean s; msgss := msgss s; parallelXmit := parallelXmit s; parallelTime := parallelTime s; parallelExpire := parallelExpire s; now := now s; snmp := snmp s; wire := wire s |}.

Definition set_recvSynOnce (s : UDPStream) (v : bool) : UDPStream :=
  {| uuid := uuid s; sel := sel s; kcp := kcp s; tunnels := tunnels s; remotes := remotes s; accepted := accepted s; bufptr := bufptr s; recvcap := recvcap s; rd := rd s; wd := wd s; writeDelay := writeDelay s; recvSynOnce := v; sendFinOnce := sendFinOnce s; chSendFinEvent := chSendFinEvent s; recvFinOnce := recvFinOnce s; chRecvFinEvent := chRecvFinEvent s; rstOnce := rstOnce s; chRst := chRst s; closeOnce := closeOnce s; chClose := chClose s; chDialEvent := chDialEvent s; chReadEvent := chReadEvent s; chWriteEvent := chWriteEvent s; chClean := chClean s; msgss := msgss s; parallelXmit := parallelXmit s; parallelTime := parallelTime s; parallelExpire := parallelExpire s; now := now s; snmp := snmp s; wire := wire s |}.

Definition set_sendFinOnce (s : UDPStream) (v : bool) : UDPStream :=
  {| uuid := uuid s; sel := sel s; kcp := kcp s; tunnels := tunnels s; remotes := remotes s; accepted := accepted s; bufptr := bufptr s; recvcap := recvcap s; rd := rd s; wd := wd s; writeDelay := writeDelay s; recvSynOnce := recvSynOnce s; sendFinOnce := v; chSendFinEvent := chSendFinEvent s; recvFinOnce := recvFinOnce s; chRecvFinEvent := chRecvFinEvent s; rstOnce := rstOnce s; chRst := chRst s; closeOnce := closeOnce s; chClose := chClose s; chDialEvent := chDialEvent s; chReadEvent := chReadEvent s; chWriteEvent := chWriteEvent s; chClean := chClean s; msgss := msgss s; parallelXmit := parallelXmit s; parallelTime := parallelTime s; parallelExpire := parallelExpire s; now := now s; snmp := snmp s; wire := wire s |}.

Definition set_chSendFinEvent (s : UDPStream) (v : bool) : UDPStream :=
  {| uuid := uuid s; sel := sel s; kcp := kcp s; tunnels := tunnels s; remotes := remotes s; accepted := accepted s; bufptr := bufptr s; recvcap := recvcap s; rd := rd s; wd := wd s; writeDelay := writeDelay s; recvSynOnce := recvSynOnce s; sendFinOnce := sendFinOnce s; chSendFinEvent := v; recvFinOnce := recvFinOnce s; chRecvFinEvent := chRecvFinEvent s; rstOnce := rstOnce s; chRst := chRst s; closeOnce := closeOnce s; chClose := chClose s; chDialEvent := chDialEvent s; chReadEvent := chReadEvent s; chWriteEvent := chWriteEvent s; chClean := chClean s; msgss := msgss s; parallelXmit := parallelXmit s; parallelTime := parallelTime s; parallelExpire := parallelExpire s; now := now s; snmp := snmp s; wire := wire s |}.

Definition set_recvFinOnce (s : UDPStream) (v : bool) : UDPStream :=
  {| uuid := uuid s; sel := sel s; kcp := kcp s; tunnels := tunnels s; remotes := remotes s; accepted := accepted s; bufptr := bufptr s; recvcap := recvcap s; rd := rd s; wd := wd s; writeDelay := writeDelay s; recvSynOnce := recvSynOnce s; sendFinOnce := sendFinOnce s; chSendFinEvent := chSendFinEvent s; recvFinOnce := v; chRecvFinEvent := chRecvFinEvent s; rstOnce := rstOnce s; chRst := chRst s; closeOnce := closeOnce s; chClose := chClose s; chDialEvent := chDialEvent s; chReadEvent := chReadEvent s; chWriteEvent := chWriteEvent s; chClean := chClean s; msgss := msgss s; parallelXmit := parallelXmit s; parallelTime := parallelTime s; parallelExpire := parallelExpire s; now := now s; snmp := snmp s; wire := wire s |}.

Definition set_chRecvFinEvent (s : UDPStream) (v : bool) : UDPStream :=
  {| uuid := uuid s; sel := sel s; kcp := kcp s; tunnels := tunnels s; remotes := remotes s; accepted := accepted s; bufptr := bufptr s; recvcap := recvcap s; rd := rd s; wd := wd s; writeDelay := writeDelay s; recvSynOnce := recvSynOnce s; sendFinOnce := sendFinOnce s; chSendFinEvent := chSendFinEvent s; recvFinOnce := recvFinOnce s; chRecvFinEvent := v; rstOnce := rstOnce s; chRst := chRst s; closeOnce := closeOnce s; chClose := chClose s; chDialEvent := chDialEvent s; chReadEvent := chReadEvent s; chWriteEvent := chWriteEvent s; chClean := chClean s; msgss := msgss s; parallelXmit := parallelXmit s; parallelTime := parallelTime s; parallelExpire := parallelExpire s; now := now s; snmp := snmp s; wire := wire s |}.

Definition set_rstOnce (s : UDPStream) (v : bool) : UDPStream :=
  {| uuid := uuid s; sel := sel s; kcp := kcp s; tunnels := tunnels s; remotes := remotes s; accepted := accepted s; bufptr := bufptr s; recvcap := recvcap s; rd := rd s; wd := wd s; writeDelay := writeDelay s; recvSynOnce := recvSynOnce s; sendFinOnce := sendFinOnce s; chSendFinEvent := chSendFinEvent s; recvFinOnce := recvFinOnce s; chRecvFinEvent := chRecvFinEvent s; rstOnce := v; chRst := chRst s; closeOnce := closeOnce s; chClose := chClose s; chDialEvent := chDialEvent s; chReadEvent := chReadEvent s; chWriteEvent := chWriteEvent s; chClean := chClean s; msgss := msgss s; parallelXmit := parallelXmit s; parallelTime := parallelTime s; parallelExpire := parallelExpire s; now := now s; snmp := snmp s; wire := wire s |}.

Definition set_chRst (s : UDPStream) (v : bool) : UDPStream :=
  {| uuid := uuid s; sel := sel s; kcp := kcp s; tunnels := tunnels s; remotes := remotes s; accepted := accepted s; bufptr := bufptr s; recvcap := recvcap s; rd := rd s; wd := wd s; writeDelay := writeDelay s; recvSynOnce := recvSynOnce s; sendFinOnce := sendFinOnce s; chSendFinEvent := chSendFinEvent s; recvFinOnce := recvFinOnce s; chRecvFinEvent := chRecvFinEvent s; rstOnce := rstOnce s; chRst := v; closeOnce := closeOnce s; chClose := chClose s; chDialEvent := chDialEvent s; chReadEvent := chReadEvent s; chWriteEvent := chWriteEvent s; chClean := chClean s; msgss := msgss s; parallelXmit := parallelXmit s; parallelTime := parallelTime s; parallelExpire := parallelExpire s; now := now s; snmp := snmp s; wire := wire s |}.

Definition set_closeOnce (s : UDPStream) (v : bool) : UDPStream :=
  {| uuid := uuid s; sel := sel s; kcp := kcp s; tunnels := tunnels s; remotes := remotes s; accepted := accepted s; bufptr := bufptr s; recvcap := recvcap s; rd := rd s; wd := wd s; writeDelay := writeDelay s; recvSynOnce := recvSynOnce s; sendFinOnce := sendFinOnce s; chSendFinEvent := chSendFinEvent s; recvFinOnce := recvFinOnce s; chRecvFinEvent := chRecvFinEvent s; rstOnce := rstOnce s; chRst := chRst s; closeOnce := v; chClose := chClose s; chDialEvent := chDialEvent s; chReadEvent := chReadEvent s; chWriteEvent := chWriteEvent s; chClean := chClean s; msgss := msgss s; parallelXmit := parallelXmit s; parallelTime := parallelTime s; parallelExpire := parallelExpire s; now := now s; snmp := snmp s; wire := wire s |}.

Definition set_chClose (s : UDPStream) (v : bool) : UDPStream :=
  {| uuid := uuid s; sel := sel s; kcp := kcp s; tunnels := tunnels s; remotes := remotes s; accepted := accepted s; bufptr := bufptr s; recvcap := recvcap s; rd := rd s; wd := wd s; writeDelay := writeDelay s; recvSynOnce := recvSynOnce s; sendFinOnce := sendFinOnce s; chSendFinEvent := chSendFinEvent s; recvFinOnce := recvFinOnce s; chRecvFinEvent := chRecvFinEvent s; rstOnce := rstOnce s; chRst := chRst s; closeOnce := closeOnce s; chClose := v; chDialEvent := chDialEvent s; chReadEvent := chReadEvent s; chWriteEvent := chWriteEvent s; chClean := chClean s; msgss := msgss s; parallelXmit := parallelXmit s; parallelTime := parallelTime s; parallelExpire := parallelExpire s; now := now s; snmp := snmp s; wire := wire s |}.

Definition set_chDialEvent (s : UDPStream) (v : bool) : UDPStream :=
  {| uuid := uuid s; sel := sel s; kcp := kcp s; tunnels := tunnels s; remotes := remotes s; accepted := accepted s; bufptr := bufptr s; recvcap := recvcap s; rd := rd s; wd := wd s; writeDelay := writeDelay s; recvSynOnce := recvSynOnce s; sendFinOnce := sendFinOnce s; chSendFinEvent := chSendFinEvent s; recvFinOnce := recvFinOnce s; chRecvFinEvent := chRecvFinEvent s; rstOnce := rstOnce s; chRst := chRst s; closeOnce := closeOnce s; chClose := chClose s; chDialEvent := v; chReadEvent := chReadEvent s; chWriteEvent := chWriteEvent s; chClean := chClean s; msgss := msgss s; parallelXmit := parallelXmit s; parallelTime := parallelTime s; parallelExpire := parallelExpire s; now := now s; snmp := snmp s; wire := wire s |}.

Definition set_chReadEvent (s : UDPStream) (v : bool) : UDPStream :=
  {| uuid := uuid s; sel := sel s; kcp := kcp s; tunnels := tunnels s; remotes := remotes s; accepted := accepted s; bufptr := bufptr s; recvcap := recvcap s; rd := rd s; wd := wd s; writeDelay := writeDelay s; recvSynOnce := recvSynOnce s; sendFinOnce := sendFinOnce s; chSendFinEvent := chSendFinEvent s; recvFinOnce := recvFinOnce s; chRecvFinEvent := chRecvFinEvent s; rstOnce := rstOnce s; chRst := chRst s; closeOnce := closeOnce s; chClose := chClose s; chDialEvent := chDialEvent s; chReadEvent := v; chWriteEvent := chWriteEvent s; chClean := chClean s; msgss := msgss s; parallelXmit := parallelXmit s; parallelTime := parallelTime s; parallelExpire := parallelExpire s; now := now s; snmp := snmp s; wire := wire s |}.

Definition set_chWriteEvent (s : UDPStream) (v : bool) : UDPStream :=
  {| uuid := uuid s; sel := sel s; kcp := kcp s; tunnels := tunnels s; remotes := remotes s; accepted := accepted s; bufptr := bufptr s; recvcap := recvcap s; rd := rd s; wd := wd s; writeDelay := writeDelay s; recvSynOnce := recvSynOnce s; sendFinOnce := sendFinOnce s; chSendFinEvent := chSendFinEvent s; recvFinOnce := recvFinOnce s; chRecvFinEvent := chRecvFinEvent s; rstOnce := rstOnce s; chRst := chRst s; closeOnce := closeOnce s; chClose := chClose s; chDialEvent := chDialEvent s; chReadEvent := chReadEvent s; chWriteEvent := v; chClean := chClean s; msgss := msgss s; parallelXmit := parallelXmit s; parallelTime := parallelTime s; parallelExpire := parallelExpire s; now := now s; snmp := snmp s; wire := wire s |}.

Definition set_chClean (s : UDPStream) (v : option Time) : UDPStream :=
  {| uuid := uuid s; sel := sel s; kcp := kcp s; tunnels := tunnels s; remotes := remotes s; accepted := accepted s; bufptr := bufptr s; recvcap := recvcap s; rd := rd s; wd := wd s; writeDelay := writeDelay s; recvSynOnce := recvSynOnce s; sendFinOnce := sendFinOnce s; chSendFinEvent := chSendFinEvent s; recvFinOnce := recvFinOnce s; chRecvFinEvent := chRecvFinEvent s; rstOnce := rstOnce s; chRst := chRst s; closeOnce := closeOnce s; chClose := chClose s; chDialEvent := chDialEvent s; chReadEvent := chReadEvent s; chWriteEvent := chWriteEvent s; chClean := v; msgss := msgss s; parallelXmit := parallelXmit s; parallelTime := parallelTime s; parallelExpire := parallelExpire s; now := now s; snmp := snmp s; wire := wire s |}.

Definition set_msgss (s : UDPStream) (v : list (list Message)) : UDPStream :=
  {| uuid := uuid s; sel := sel s; kcp := kcp s; tunnels := tunnels s; remotes := remotes s; accepted := accepted s; bufptr := bufptr s; recvcap := recvcap s; rd := rd s; wd := wd s; writeDelay := writeDelay s; recvSynOnce := recvSynOnce s; sendFinOnce := sendFinOnce s; chSendFinEvent := chSendFinEvent s; recvFinOnce := recvFinOnce s; chRecvFinEvent := chRecvFinEvent s; rstOnce := rstOnce s; chRst := chRst s; closeOnce := closeOnce s; chClose := chClose s; chDialEvent := chDialEvent s; chReadEvent := chReadEvent s; chWriteEvent := chWriteEvent s; chClean := chClean s; msgss := v; parallelXmit := parallelXmit s; parallelTime := parallelTime s; parallelExpire := parallelExpire s; now := now s; snmp := snmp s; wire := wire s |}.

Definition set_parallelXmit (s : UDPStream) (v : N) : UDPStream :=
  {| uuid := uuid s; sel := sel s; kcp := kcp s; tunnels := tunnels s; remotes := remotes s; accepted := accepted s; bufptr := bufptr s; recvcap := recvcap s; rd := rd s; wd := wd s; writeDelay := writeDelay s; recvSynOnce := recvSynOnce s; sendFinOnce := sendFinOnce s; chSendFinEvent := chSendFinEvent s; recvFinOnce := recvFinOnce s; chRecvFinEvent := chRecvFinEvent s; rstOnce := rstOnce s; chRst := chRst s; closeOnce := closeOnce s; chClose := chClose s; chDialEvent := chDialEvent s; chReadEvent := chReadEvent s; chWriteEvent := chWriteEvent s; chClean := chClean s; msgss := msgss s; parallelXmit := v; parallelTime := parallelTime s; parallelExpire := parallelExpire s; now := now s; snmp := snmp s; wire := wire s |}.

Definition set_parallelTime (s : UDPStream) (v : Duration) : UDPStream :=
  {| uuid := uuid s; sel := sel s; kcp := kcp s; tunnels := tunnels s; remotes := remotes s; accepted := accepted s; bufptr := bufptr s; recvcap := recvcap s; rd := rd s; wd := wd s; writeDelay := writeDelay s; recvSynOnce := recvSynOnce s; sendFinOnce := sendFinOnce s; chSendFinEvent := chSendFinEvent s; recvFinOnce := recvFinOnce s; chRecvFinEvent := chRecvFinEvent s; rstOnce := rstOnce s; chRst := chRst s; closeOnce := closeOnce s; chClose := chClose s; chDialEvent := chDialEvent s; chReadEvent := chReadEvent s; chWriteEvent := chWriteEvent s; chClean := chClean s; msgss := msgss s; parallelXmit := parallelXmit s; parallelTime := v; parallelExpire := parallelExpire s; now := now s; snmp := snmp s; wire := wire s |}.

Definition set_parallelExpire (s : UDPStream) (v : Time) : UDPStream :=
  {| uuid := uuid s; sel := sel s; kcp := kcp s; tunnels := tunnels s; remotes := remotes s; accepted := accepted s; bufptr := bufptr s; recvcap := recvcap s; rd := rd s; wd := wd s; writeDelay := writeDelay s; recvSynOnce := recvSynOnce s; sendFinOnce := sendFinOnce s; chSendFinEvent := chSendFinEvent s; recvFinOnce := recvFinOnce s; chRecvFinEvent := chRecvFinEvent s; rstOnce := rstOnce s; chRst := chRst s; closeOnce := closeOnce s; chClose := chClose s; chDialEvent := chDialEvent s; chReadEvent := chReadEvent s; chWriteEvent := chWriteEvent s; chClean := chClean s; msgss := msgss s; parallelXmit := parallelXmit s; parallelTime := parallelTime s; parallelExpire := v; now := now s; snmp := snmp s; wire := wire s |}.

Definition set_now (s : UDPStream) (v : Time) : UDPStream :=
  {| uuid := uuid s; sel := sel s; kcp := kcp s; tunnels := tunnels s; remotes := remotes s; accepted := accepted s; bufptr := bufptr s; recvcap := recvcap s; rd := rd s; wd := wd s; writeDelay := writeDelay s; recvSynOnce := recvSynOnce s; sendFinOnce := sendFinOnce s; chSendFinEvent := chSendFinEvent s; recvFinOnce := recvFinOnce s; chRecvFinEvent := chRecvFinEvent s; rstOnce := rstOnce s; chRst := chRst s; closeOnce := closeOnce s; chClose := chClose s; chDialEvent := chDialEvent s; chReadEvent := chReadEvent s; chWriteEvent := chWriteEvent s; chClean := chClean s; msgss := msgss s; parallelXmit := parallelXmit s; parallelTime := parallelTime s; parallelExpire := parallelExpire s; now := v; snmp := snmp s; wire := wire s |}.

Definition set_snmp (s : UDPStream) (v : Snmp) : UDPStream :=
  {| uuid := uuid s; sel := sel s; kcp := kcp s; tunnels := tunnels s; remotes := remotes s; accepted := accepted s; bufptr := bufptr s; recvcap := recvcap s; rd := rd s; wd := wd s; writeDelay := writeDelay s; recvSynOnce := recvSynOnce s; sendFinOnce := sendFinOnce s; chSendFinEvent := chSendFinEvent s; recvFinOnce := recvFinOnce s; chRecvFinEvent := chRecvFinEvent s; rstOnce := rstOnce s; chRst := chRst s; closeOnce := closeOnce s; chClose := chClose s; chDialEvent := chDialEvent s; chReadEvent := chReadEvent s; chWriteEvent := chWriteEvent s; chClean := chClean s; msgss := msgss s; parallelXmit := parallelXmit s; parallelTime := parallelTime s; parallelExpire := parallelExpire s; now := now s; snmp := v; wire := wire s |}.

Definition set_wire (s : UDPStream) (v : list (tunnel * list Message)) : UDPStream :=
  {| uuid := uuid s; sel := sel s; kcp := kcp s; tunnels := tunnels s; remotes := remotes s; accepted := accepted s; bufptr := bufptr s; recvcap := recvcap s; rd := rd s; wd := wd s; writeDelay := writeDelay s; recvSynOnce := recvSynOnce s; sendFinOnce := sendFinOnce s; chSendFinEvent := chSendFinEvent s; recvFinOnce := recvFinOnce s; chRecvFinEvent := chRecvFinEvent s; rstOnce := rstOnce s; chRst := chRst s; closeOnce := closeOnce s; chClose := chClose s; chDialEvent := chDialEvent s; chReadEvent := chReadEvent s; chWriteEvent := chWriteEvent s; chClean := chClean s; msgss := msgss s; parallelXmit := parallelXmit s; parallelTime := parallelTime s; parallelExpire := parallelExpire s; now := now s; snmp := snmp s; wire := v |}.

(** The uint64 counters of [DefaultSnmp]. *)
Definition add_BytesSent (s : UDPStream) (n : nat) : UDPStream :=
  set_snmp s (mkSnmp (u64_add (BytesSent (snmp s)) (Z.of_nat n))
                     (BytesReceived (snmp s)) (CurrEstab (snmp s))).
Definition add_BytesReceived (s : UDPStream) (n : nat) : UDPStream :=
  set_snmp s (mkSnmp (BytesSent (snmp s))
                     (u64_add (BytesReceived (snmp s)) (Z.of_nat n)) (CurrEstab (snmp s))).
(** [atomic.AddUint64(&DefaultSnmp.CurrEstab, ^uint64(0))] *)
Definition dec_CurrEstab (s : UDPStream) : UDPStream :=
  set_snmp s (mkSnmp (BytesSent (snmp s)) (BytesReceived (snmp s))
                     (u64_add (CurrEstab (snmp s)) (2 ^ 64 - 1))).

Definition notifyDialEvent (s : UDPStream) : UDPStream := set_chDialEvent s true.
Definition notifyReadEvent (s : UDPStream) : UDPStream := set_chReadEvent s true.
Definition notifyWriteEvent (s : UDPStream) : UDPStream := set_chWriteEvent s true.

Notation "'let?' x ':=' m 'in' k" :=
  (match m with Some x => k | None => None end)
  (at level 200, x pattern, m at level 100, k at level 200).

(** ** The multi-tunnel dispatcher *)

(** [parallelTun]: the number of tunnels that get a copy of a datagram. *)
Definition parallelTun (s : UDPStream) (xmitMax : N) : nat * UDPStream :=
  if N.leb (parallelXmit s) xmitMax then
    (length (tunnels s), set_parallelExpire s (now s + parallelTime s))
  else if IsZero (parallelExpire s) then (1%nat, s)
  else if After (parallelExpire s) (now s) then (length (tunnels s), s)
  else (1%nat, set_parallelExpire s 0).

(** The loop of [output] over [i] in [0, appendCount).  [pool i] is the
    buffer [xmitBuf.Get()] hands out for the [i]-th copy, at its full
    capacity and with whatever bytes it held before.  [None] is a panic:
    a slice beyond capacity or an index out of range. *)
Fixpoint output_copies (s : UDPStream) (buf : list byte) (pool : nat -> list byte)
    (i cnt : nat) (ms : list (list Message)) : option (list (list Message)) :=
  match cnt with
  | O => Some ms
  | S c =>
      if Nat.ltb (length (pool i)) (length buf) then None else
      let bts := firstn (length buf) (pool i) in
      let bts := go_copy bts (uuid s) in
      if Nat.ltb (length bts) gouuid_Size then None else
      let bts := firstn gouuid_Size bts
                 ++ go_copy (skipn gouuid_Size bts) (skipn gouuid_Size buf) in
      let? addr := nth_error (remotes s) i in
      let? q := nth_error ms i in
      let? ms' := set_nth i (q ++ [mkMessage [bts] addr]) ms in
      output_copies s buf pool (S i) c ms'
  end.

Definition output (s : UDPStream) (buf : list byte) (xmitMax : N)
    (pool : nat -> list byte) : option UDPStream :=
  let (appendCount, s1) := parallelTun s xmitMax in
  let ms := msgss s1 ++ repeat [] (appendCount - length (msgss s1)) in
  let? ms' := output_copies s1 buf pool 0 appendCount ms in
  Some (set_msgss s1 ms').

(** The output callback given to [NewKCP] (the header size is
    [gouuid.Size]). *)
Definition kcp_output (s : UDPStream) (buf : list byte) (size : nat) (xmitMax : N)
    (pool : nat -> list byte) : option UDPStream :=
  if Nat.leb (IKCP_OVERHEAD + gouuid_Size) size
  then output s (firstn size buf) xmitMax pool
  else Some s.

(** The buffers of [xmitBuf]: [mtuLimit] bytes each. *)
Definition xmitBuf_Get : nat -> list byte := fun _ => repeat x00 mtuLimit.

Fixpoint output_all (s : UDPStream) (segs : list (list byte * nat)) : option UDPStream :=
  match segs with
  | [] => Some s
  | (b, x) :: t =>
      let? s' := kcp_output s b (length b) (N.of_nat x) xmitBuf_Get in
      output_all s' t
  end.

(** The loop of [flush] handing each non-empty batch to [s.tunnels[i]];
    what the tunnels are handed is recorded in [wire]. *)
Fixpoint handoff (tuns : list tunnel) (i : nat) (mss : list (list Message))
    (w : list (tunnel * list Message)) : option (list (tunnel * list Message)) :=
  match mss with
  | [] => Some w
  | [] :: t => handoff tuns (S i) t w
  | msgs :: t =>
      let? tn := nth_error tuns i in
      handoff tuns (S i) t (w ++ [(tn, msgs)])
  end.

Definition flush (s : UDPStream) (kcpFlush : bool) : option UDPStream :=
  let? s1 := (if kcpFlush then
                let (k', segs) := kcp_flush (kcp s) in output_all (set_kcp s k') segs
              else Some s) in
  let waitsnd := WaitSnd (kcp s1) in
  let notifyWrite := Nat.ltb waitsnd (snd_wnd (kcp s1)) && Nat.ltb waitsnd (rmt_wnd (kcp s1)) in
  match msgss s1 with
  | [] => Some (if notifyWrite then notifyWriteEvent s1 else s1)
  | batches =>
      let s2 := set_msgss s1 [] in
      let s3 := if notifyWrite then notifyWriteEvent s2 else s2 in
      let? w := handoff (tunnels s3) 0 batches (wire s3) in
      Some (set_wire s3 w)
  end.

(** ** Control commands *)

(** [reset] *)
Definition reset (s : UDPStream) : UDPStream :=
  if rstOnce s then s
  else set_kcp (set_chRst (set_rstOnce s true) true) (ReleaseTX (kcp s)).

Section Commands.

(** [net.ResolveUDPAddr("udp", remote)]: an address or an error message. *)
Variable ResolveUDPAddr : list byte -> UDPAddr + list byte.

Fixpoint resolve_all (rs : list (list byte)) : list UDPAddr + err :=
  match rs with
  | [] => inl []
  | r :: t =>
      match ResolveUDPAddr r with
      | inr e => inr (ErrAddr e)
      | inl a => match resolve_all t with
                 | inl l => inl (a :: l)
                 | inr e => inr e
                 end
      end
  end.

(** [recvSyn]: returns the new state, [n] and [err]. *)
Definition recvSyn (s : UDPStream) (data : list byte) : UDPStream * nat * option err :=
  if recvSynOnce s then (s, length data, None) else
  let s := set_recvSynOnce s true in
  let remotes := strings_Split data x20 in
  match remotes with
  | [] => (s, length data, Some errSynInfo)
  | _ =>
      let tuns := sel s remotes in
      if Nat.eqb (length tuns) 0 || negb (Nat.eqb (length tuns) (length remotes))
      then (s, length data, Some errSynInfo)
      else match resolve_all remotes with
           | inr e => (s, length data, Some e)
           | inl addrs => (set_remotes (set_tunnels s tuns) addrs, length data, None)
           end
  end.

Definition recvFin (s : UDPStream) (data : list byte) : UDPStream * nat * option err :=
  let s := if recvFinOnce s then s
           else set_chRecvFinEvent (set_recvFinOnce s true) true in
  (s, length data, Some EOF).

Definition recvRst (s : UDPStream) (data : list byte) : UDPStream * nat * option err :=
  (reset s, length data, Some ErrUnexpectedEOF).

(** [cmdRead]; [blen] is the length of the caller's buffer [b]. *)
Definition cmdRead (s : UDPStream) (flag : byte) (data : list byte) (blen : nat)
  : UDPStream * nat * option err :=
  if Byte.eqb flag PSH then (s, Nat.min blen (length data), None)      (* recvPsh *)
  else if Byte.eqb flag SYN then recvSyn s data
  else if Byte.eqb flag FIN then recvFin s data
  else if Byte.eqb flag HRT then (s, length data, None)                (* recvHrt *)
  else if Byte.eqb flag RST then recvRst s data
  else (s, 0%nat, Some errStreamFlag).

End Commands.

(** ** The Write and Read loops *)

(** One pass of a blocking loop, under the lock: either the call returns
    with [r], or the caller blocks on its events with the given deadline
    timer. *)
Inductive outcome (R : Type) :=
| ODone (s : UDPStream) (r : R)
| OBlock (s : UDPStream) (timer : option Time).
Arguments ODone {R}.
Arguments OBlock {R}.

(** The deadline check before blocking: a zero deadline blocks without a
    timer, a passed one returns the timeout error, else a timer is armed
    that fires at the deadline. *)
Definition wait_or_timeout {R} (s : UDPStream) (d : Time) (timeout : R) : outcome R :=
  if IsZero d then OBlock s None
  else if After (now s) d then ODone s timeout
  else OBlock s (Some d).

(** The inner loop of [WriteBuffer]: segments of [flag] and [mss - 1] user
    bytes while [len(b) >= mss], then [flag] and the tail.  The result is
    the ARQ engine and the final value of [b].  [None]: no termination
    (an [mss] below 2 makes no progress). *)
Fixpoint write_segments (fuel : nat) (flag : byte) (mss : nat) (b : list byte) (k : KCP)
  : option (KCP * list byte) :=
  match fuel with
  | O => None
  | S f =>
      if Nat.ltb (length b) mss then Some (Send k (flag :: b), b)
      else write_segments f flag mss (skipn (mss - 1) b) (Send k (flag :: firstn (mss - 1) b))
  end.

(** One iteration of the outer [for] loop of [WriteBuffer]. *)
Definition write_loop (s : UDPStream) (flag : byte) (b : list byte)
  : option (outcome (nat * option err)) :=
  let k := kcp s in
  let waitsnd := WaitSnd k in
  if Nat.ltb waitsnd (snd_wnd k) && Nat.ltb waitsnd (rmt_wnd k) then
    let? (k', b) := write_segments (S (length b)) flag (mss k) b k in
    let s1 := set_kcp s k' in
    let waitsnd := WaitSnd k' in
    let needFlush := Nat.leb (snd_wnd k') waitsnd || Nat.leb (rmt_wnd k') waitsnd
                     || negb (writeDelay s) in
    let? s2 := (if needFlush then flush s1 true else Some s1) in
    Some (ODone (add_BytesSent s2 (length b)) (length b, None))
  else Some (wait_or_timeout s (wd s) (0%nat, Some errTimeout)).

Section Threads.

Variable ResolveUDPAddr : list byte -> UDPAddr + list byte.

(** [if cap(s.recvbuf) < size { s.recvbuf = make([]byte, size) }] *)
Definition grow_recvbuf (s : UDPStream) (size : nat) : UDPStream :=
  if Nat.ltb (recvcap s) size then set_recvcap s size else s.

(** One iteration of the [for] loop of [Read]; [blen] is [len(b)].  The
    result is the bytes copied into [b] and the error. *)
Definition read_loop (s : UDPStream) (blen : nat)
  : option (outcome (list byte * option err)) :=
  match bufptr s with
  | (_ :: _) as bp =>
      let n := Nat.min blen (length bp) in
      Some (ODone (add_BytesReceived (set_bufptr s (skipn n bp)) n) (firstn n bp, None))
  | [] =>
      if Z.ltb 0 (PeekSize (kcp s)) then
        let s := grow_recvbuf s (Z.to_nat (PeekSize (kcp s))) in
        let (recvbuf, k') := Recv (kcp s) in
        match recvbuf with
        | [] => None
        | flag :: data =>
            let '(s2, n, e) := cmdRead ResolveUDPAddr (set_kcp s k') flag data blen in
            let s3 := set_bufptr s2 (skipn (S n) recvbuf) in
            Some (ODone (add_BytesReceived s3 (S n))
                        (if Byte.eqb flag PSH then firstn n data else [], e))
        end
      else Some (wait_or_timeout s (rd s) ([], Some errTimeout))
  end.

(** [Accept] after its first [select], under the lock.  [None] is the
    panic of [s.recvbuf[:size]] for a message beyond the capacity of
    [recvbuf] (which [Accept], unlike [Read], does not grow). *)
Definition accept_body (s : UDPStream) : option (UDPStream * option err) :=
  if Z.leb (PeekSize (kcp s)) 0 then Some (s, Some errRemoteStream) else
  if Nat.ltb (recvcap s) (Z.to_nat (PeekSize (kcp s))) then None else
  let (recvbuf, k') := Recv (kcp s) in
  let s1 := set_kcp s k' in
  match recvbuf with
  | flag :: data =>
      if Byte.eqb flag SYN then
        let '(s2, _, e) := recvSyn ResolveUDPAddr s1 data in Some (s2, e)
      else Some (s1, Some errRemoteStream)
  | [] => Some (s1, Some errRemoteStream)
  end.

End Threads.

(** ** Threads *)

(** Who called [WriteBuffer], and so what runs when it returns. *)
Inductive cont :=
| KWrite                       (* Write / WriteFlag *)
| KClose                       (* the RST of Close *)
| KCloseWrite                  (* the FIN of CloseWrite *)
| KDial (timeout : Duration).  (* the SYN of Dial *)

(** What a method returns. *)
Inductive ret :=
| RErr (e : option err)                  (* Close, CloseWrite, Dial, Accept *)
| RInt (n : nat) (e : option err)        (* Write *)
| RRead (data : list byte) (e : option err).  (* Read: the bytes put in b *)

Inductive proc :=
| PWrite (flag : byte) (b : list byte) (k : cont)
| PWriteLoop (flag : byte) (b : list byte) (k : cont)
| PWriteWait (flag : byte) (b : list byte) (timer : option Time) (k : cont)
| PWriteRet (k : cont) (n : nat) (e : option err)
| PRead (blen : nat)
| PReadLoop (blen : nat)
| PReadWait (blen : nat) (timer : option Time)
| PClose
| PCloseWrite
| PDial (locals : list (list byte)) (timeout : Duration)
| PDialWait (deadline : Time)
| PAccept
| PDone (r : ret).

(** The case chosen by a blocking [select]: return an error (or nil), or
    take the coalesced event and loop. *)
Inductive wake := WkErr (e : option err) | WkEvent.

Definition timer_fired (s : UDPStream) (timer : option Time) : bool :=
  match timer with Some d => Z.leb d (now s) | None => false end.

(** The first [select] of [WriteBuffer] (default: [None], go on). *)
Definition write_entry_cases (s : UDPStream) : list (bool * option err) :=
  [(chClose s, Some ErrClosedPipe); (chRst s, Some ErrUnexpectedEOF);
   (chSendFinEvent s, Some ErrClosedPipe)].

(** The blocking [select] of [WriteBuffer]. *)
Definition write_wait_cases (s : UDPStream) (timer : option Time) : list (bool * wake) :=
  [(chClose s, WkErr (Some ErrClosedPipe)); (chRst s, WkErr (Some ErrUnexpectedEOF));
   (chSendFinEvent s, WkErr (Some EOF)); (chWriteEvent s, WkEvent);
   (timer_fired s timer, WkErr (Some errTimeout))].

(** The first [select] of [Read] and of [Accept]. *)
Definition read_entry_cases (s : UDPStream) : list (bool * option err) :=
  [(chClose s, Some ErrClosedPipe); (chRst s, Some ErrUnexpectedEOF);
   (chRecvFinEvent s, Some EOF)].

(** The blocking [select] of [Read]. *)
Definition read_wait_cases (s : UDPStream) (timer : option Time) : list (bool * wake) :=
  [(chClose s, WkErr (Some ErrClosedPipe)); (chRst s, WkErr (Some ErrUnexpectedEOF));
   (chRecvFinEvent s, WkErr (Some EOF)); (chReadEvent s, WkEvent);
   (timer_fired s timer, WkErr (Some errTimeout))].

(** The blocking [select] of [Dial]. *)
Definition dial_wait_cases (s : UDPStream) (deadline : Time) : list (bool * wake) :=
  [(chClose s, WkErr (Some ErrClosedPipe)); (chRst s, WkErr (Some ErrUnexpectedEOF));
   (chRecvFinEvent s, WkErr (Some EOF)); (chDialEvent s, WkEvent);
   (Z.leb deadline (now s), WkErr (Some errTimeout))].

(** What [Close] does after its RST write: close [chClose], arm the clean
    timer, decrement [CurrEstab]. *)
Definition close_rest (s : UDPStream) : UDPStream :=
  dec_CurrEstab (set_chClean (set_chClose s true) (Some (now s + CleanTimeout))).

Section Step.

Variable ResolveUDPAddr : list byte -> UDPAddr + list byte.

(** One atomic step of a thread running a method of the stream. *)
Inductive tstep : UDPStream -> proc -> UDPStream -> proc -> Prop :=
(* WriteBuffer *)
| t_write_entry_err s flag b k e :
    go_select (write_entry_cases s) (Some None) (Some e) ->
    tstep s (PWrite flag b k) s (PWriteRet k 0 (Some e))
| t_write_entry s flag b k :
    go_select (write_entry_cases s) (Some None) None ->
    tstep s (PWrite flag b k) s (PWriteLoop flag b k)
| t_write_done s flag b k s' n e :
    write_loop s flag b = Some (ODone s' (n, e)) ->
    tstep s (PWriteLoop flag b k) s' (PWriteRet k n e)
| t_write_block s flag b k s' timer :
    write_loop s flag b = Some (OBlock s' timer) ->
    tstep s (PWriteLoop flag b k) s' (PWriteWait flag b timer k)
| t_write_wake_err s flag b timer k e :
    go_select (write_wait_cases s timer) None (WkErr e) ->
    tstep s (PWriteWait flag b timer k) s (PWriteRet k 0 e)
| t_write_wake s flag b timer k :
    go_select (write_wait_cases s timer) None WkEvent ->
    tstep s (PWriteWait flag b timer k) (set_chWriteEvent s false) (PWriteLoop flag b k)
(* the callers of WriteBuffer, once it returns *)
| t_ret_write s n e :
    tstep s (PWriteRet KWrite n e) s (PDone (RInt n e))
| t_ret_close s n e :
    tstep s (PWriteRet KClose n e) (close_rest s) (PDone (RErr None))
| t_ret_closewrite s n e :
    tstep s (PWriteRet KCloseWrite n e) (set_chSendFinEvent s true) (PDone (RErr None))
| t_ret_dial s n e timeout s' :
    flush s true = Some s' ->
    tstep s (PWriteRet (KDial timeout) n e) s' (PDialWait (now s' + timeout))
(* Close *)
| t_close_again s :
    closeOnce s = true -> tstep s PClose s (PDone (RErr (Some ErrClosedPipe)))
| t_close_first s :
    closeOnce s = false -> tstep s PClose (set_closeOnce s true) (PWrite RST [] KClose)
(* CloseWrite *)
| t_closewrite_again s :
    sendFinOnce s = true -> tstep s PCloseWrite s (PDone (RErr None))
| t_closewrite_first s :
    sendFinOnce s = false ->
    tstep s PCloseWrite (set_sendFinOnce s true) (PWrite FIN [] KCloseWrite)
(* Dial *)
| t_dial_accepted s locals timeout :
    accepted s = true -> tstep s (PDial locals timeout) s (PDone (RErr None))
| t_dial_param s timeout :
    accepted s = false -> tstep s (PDial [] timeout) s (PDone (RErr (Some errDialParam)))
| t_dial_syn s l ls timeout :
    accepted s = false ->
    tstep s (PDial (l :: ls) timeout) s
          (PWrite SYN (strings_Join (l :: ls) x20) (KDial timeout))
| t_dial_wake_err s d e :
    go_select (dial_wait_cases s d) None (WkErr e) -> tstep s (PDialWait d) s (PDone (RErr e))
| t_dial_wake s d :
    go_select (dial_wait_cases s d) None WkEvent ->
    tstep s (PDialWait d) (set_chDialEvent s false) (PDone (RErr None))
(* Read *)
| t_read_entry_err s blen e :
    go_select (read_entry_cases s) (Some None) (Some e) ->
    tstep s (PRead blen) s (PDone (RRead [] (Some e)))
| t_read_entry s blen :
    go_select (read_entry_cases s) (Some None) None -> tstep s (PRead blen) s (PReadLoop blen)
| t_read_done s blen s' data e :
    read_loop ResolveUDPAddr s blen = Some (ODone s' (data, e)) ->
    tstep s (PReadLoop blen) s' (PDone (RRead data e))
| t_read_block s blen s' timer :
    read_loop ResolveUDPAddr s blen = Some (OBlock s' timer) ->
    tstep s (PReadLoop blen) s' (PReadWait blen timer)
| t_read_wake_err s blen timer e :
    go_select (read_wait_cases s timer) None (WkErr e) ->
    tstep s (PReadWait blen timer) s (PDone (RRead [] e))
| t_read_wake s blen timer :
    go_select (read_wait_cases s timer) None WkEvent ->
    tstep s (PReadWait blen timer) (set_chReadEvent s false) (PReadLoop blen)
(* Accept *)
| t_accept_err s e :
    go_select (read_entry_cases s) (Some None) (Some e) ->
    tstep s PAccept s (PDone (RErr (Some e)))
| t_accept s s' e :
    go_select (read_entry_cases s) (Some None) None ->
    accept_body ResolveUDPAddr s = Some (s', e) ->
    tstep s PAccept s' (PDone (RErr e)).

(** A thread running alone. *)
Inductive tsteps : UDPStream -> proc -> UDPStream -> proc -> Prop :=
| tsteps_refl s p : tsteps s p s p
| tsteps_step s p s1 p1 s' p' :
    tstep s p s1 p1 -> tsteps s1 p1 s' p' -> tsteps s p s' p'.

(** Several threads on one stream, and the passing of time. *)
Inductive sys_step : UDPStream * list proc -> UDPStream * list proc -> Prop :=
| sys_thread s ps i p s' p' ps' :
    nth_error ps i = Some p -> tstep s p s' p' -> set_nth i p' ps = Some ps' ->
    sys_step (s, ps) (s', ps')
| sys_tick s ps d :
    0 <= d -> sys_step (s, ps) (set_now s (now s + d), ps).

Inductive sys_steps : UDPStream * list proc -> UDPStream * list proc -> Prop :=
| sys_refl c : sys_steps c c
| sys_trans c c1 c' : sys_step c c1 -> sys_steps c1 c' -> sys_steps c c'.

(** [n] calls of a method in a row, each run to its return; [rs] are the
    returned values. *)
Inductive calls (p : proc) : nat -> UDPStream -> UDPStream -> list ret -> Prop :=
| calls_zero s : calls p 0 s s []
| calls_succ n s s1 r s' rs :
    tsteps s p s1 (PDone r) -> calls p n s1 s' rs -> calls p (S n) s s' (r :: rs).

End Step.

(** ** Concrete streams *)

Definition addr1 : UDPAddr := mkUDPAddr [x7f; x00; x00; x01] 8001.
Definition addr2 : UDPAddr := mkUDPAddr [x7f; x00; x00; x02] 8001.

(** A resolver accepting every endpoint, to [addr1]. *)
Definition resolve_any : list byte -> UDPAddr + list byte := fun _ => inl addr1.

(** A selector that maps each endpoint to tunnel 0. *)
Definition sel_one (rs : list (list byte)) : list tunnel := map (fun _ => 0%nat) rs.

Definition uuid0 : list byte :=
  [x00; x01; x02; x03; x04; x05; x06; x07; x08; x09; x0a; x0b; x0c; x0d; x0e; x0f].

(** A stream as [NewUDPStream] leaves it (one tunnel, the default MSS of
    1400 - 24 - 16 bytes, windows of 32 segments), at time [t0]. *)
Definition t0 : Time := 1000 * Second.
Definition kcp0 : KCP := mkKCP 1360 32 32 [] [] [].
Definition stream0 : UDPStream :=
  {| uuid := uuid0; sel := sel_one; kcp := kcp0; tunnels := [0%nat]; remotes := [addr1];
     accepted := false; bufptr := []; recvcap := mtuLimit; rd := 0; wd := 0; writeDelay := false;
     recvSynOnce := false; sendFinOnce := false; chSendFinEvent := false;
     recvFinOnce := false; chRecvFinEvent := false; rstOnce := false; chRst := false;
     closeOnce := false; chClose := false; chDialEvent := false; chReadEvent := false;
     chWriteEvent := false; chClean := None; msgss := [];
     parallelXmit := DefaultParallelXmit; parallelTime := DefaultParallelTime;
     parallelExpire := 0; now := t0; snmp := mkSnmp 0 0 1; wire := [] |}.

(** ** Deadlines and write delay *)

(** [SetDeadline] *)
Definition SetDeadline (s : UDPStream) (t : Time) : UDPStream :=
  notifyWriteEvent (notifyReadEvent (set_wd (set_rd s t) t)).

(** [SetReadDeadline] *)
Definition SetReadDeadline (s : UDPStream) (t : Time) : UDPStream :=
  notifyReadEvent (set_rd s t).

(** [SetWriteDeadline] *)
Definition SetWriteDeadline (s : UDPStream) (t : Time) : UDPStream :=
  notifyWriteEvent (set_wd s t).

(** [SetWriteDelay] *)
Definition SetWriteDelay (s : UDPStream) (delay : bool) : UDPStream :=
  set_writeDelay s delay.

(** ** The constructor *)
Section Constructor.

Variable ResolveUDPAddr : list byte -> UDPAddr + list byte.

(** [NewUDPStream]: [k] is the engine [NewKCP] returns after
    [ReserveBytes(gouuid.Size)], [t] the time of the call and [sn] the
    counters of [DefaultSnmp] before it ([MaxConn] is not kept).  The
    update goroutine, timers and pools are not part of the state. *)
Definition NewUDPStream (uuid : list byte) (accepted : bool) (remotes : list (list byte))
    (sel : list (list byte) -> list tunnel) (k : KCP) (t : Time) (sn : Snmp)
  : UDPStream + err :=
  let tunnels := sel remotes in
  if Nat.eqb (length tunnels) 0 || negb (Nat.eqb (length tunnels) (length remotes))
  then inr errTunnelPick
  else match resolve_all ResolveUDPAddr remotes with
       | inr e => inr e
       | inl remoteAddrs =>
           inl {| uuid := uuid; sel := sel; kcp := k; tunnels := tunnels;
                  remotes := remoteAddrs; accepted := accepted; bufptr := []; recvcap := mtuLimit; rd := 0;
                  wd := 0; writeDelay := false; recvSynOnce := false; sendFinOnce := false;
                  chSendFinEvent := false; recvFinOnce := false; chRecvFinEvent := false;
                  rstOnce := false; chRst := false; closeOnce := false; chClose := false;
                  chDialEvent := false; chReadEvent := false; chWriteEvent := false;
                  chClean := None; msgss := []; parallelXmit := DefaultParallelXmit;
                  parallelTime := DefaultParallelTime; parallelExpire := 0; now := t;
                  snmp := mkSnmp (BytesSent sn) (BytesReceived sn) (u64_add (CurrEstab sn) 1);
                  wire := [] |}
       end.

End Constructor.

(** ** The tunnel selector of the test program (package main) *)

(** [TunnelPoll]: its tunnels and the [uint32] round-robin index. *)
Record TunnelPoll := mkTunnelPoll { poll_tunnels : list tunnel; poll_idx : Z }.

(** [TunnelPoll.Add] *)
Definition TunnelPoll_Add (poll : TunnelPoll) (t : tunnel) : TunnelPoll :=
  mkTunnelPoll (poll_tunnels poll ++ [t]) (poll_idx poll).

(** [TunnelPoll.Pick]: [atomic.AddUint32(&poll.idx, 1) % uint32(len(poll.tunnels))].
    [None]: the integer division by zero of an empty poll panics. *)
Definition TunnelPoll_Pick (poll : TunnelPoll) : option (tunnel * TunnelPoll) :=
  let idx := (poll_idx poll + 1) mod 2 ^ 32 in
  let len := Z.of_nat (length (poll_tunnels poll)) mod 2 ^ 32 in
  if Z.eqb len 0 then None else
  let? t := nth_error (poll_tunnels poll) (Z.to_nat (idx mod len)) in
  Some (t, mkTunnelPoll (poll_tunnels poll) idx).

Section Selector.

(** [net.SplitHostPort]: the host, or [None] on an error. *)
Variable SplitHostPort : list byte -> option (list byte).
(** [net.ParseIP(host).IsLoopback()] ([false] for an unparsable host). *)
Variable IsLoopbackHost : list byte -> bool.
(** [tunnel.LocalAddr().IP.IsLoopback()] *)
Variable TunnelIsLoopback : tunnel -> bool.

(** [TestSelector] ([remoteAddrs] is never used). *)
Record TestSelector := mkTestSelector { loopPoll : TunnelPoll; otherPoll : TunnelPoll }.

(** [TestSelector.Add] *)
Definition TestSelector_Add (sel : TestSelector) (t : tunnel) : TestSelector :=
  if TunnelIsLoopback t then mkTestSelector (TunnelPoll_Add (loopPoll sel) t) (otherPoll sel)
  else mkTestSelector (loopPoll sel) (TunnelPoll_Add (otherPoll sel) t).

(** [TestSelector.Pick]; [None] is a panic ([panic("pick tunnel")] or an
    empty poll). *)
Fixpoint TestSelector_Pick (sel : TestSelector) (remotes : list (list byte))
  : option (list tunnel * TestSelector) :=
  match remotes with
  | [] => Some ([], sel)
  | r :: rs =>
      let? ipstr := SplitHostPort r in
      if IsLoopbackHost ipstr then
        let? (t, p) := TunnelPoll_Pick (loopPoll sel) in
        let? (ts, sel') := TestSelector_Pick (mkTestSelector p (otherPoll sel)) rs in
        Some (t :: ts, sel')
      else
        let? (t, p) := TunnelPoll_Pick (otherPoll sel) in
        let? (ts, sel') := TestSelector_Pick (mkTestSelector (loopPoll sel) p) rs in
        Some (t :: ts, sel')
  end.

End Selector.

(** ** Properties of stream states used below *)

(** The three signals [Read] checks first. *)
Definition read_open (s : UDPStream) : Prop :=
  chClose s = false /\ chRst s = false /\ chRecvFinEvent s = false.

(** The closed channels, once closed, stay closed. *)
Definition signals_le (s s' : UDPStream) : Prop :=
  (chClose s = true -> chClose s' = true) /\ (chRst s = true -> chRst s' = true) /\
  (chSendFinEvent s = true -> chSendFinEvent s' = true) /\
  (chRecvFinEvent s = true -> chRecvFinEvent s' = true).

(** The stream has tunnels, and one remote address per tunnel. *)
Definition links_ok (s : UDPStream) : Prop :=
  tunnels s <> [] /\ length (tunnels s) = length (remotes s).

Definition ctl_le (s s' : UDPStream) : Prop := signals_le s s' /\ (links_ok s -> links_ok s').

(** What the sending path keeps. *)
Definition same_ctl (s s' : UDPStream) : Prop :=
  chClose s' = chClose s /\ chRst s' = chRst s /\ chSendFinEvent s' = chSendFinEvent s /\
  chRecvFinEvent s' = chRecvFinEvent s /\ tunnels s' = tunnels s /\ remotes s' = remotes s.

(** The three signals [WriteBuffer] checks first. *)
Definition write_open (s : UDPStream) : Prop :=
  chClose s = false /\ chRst s = false /\ chSendFinEvent s = false.

(** The send window is full: [WriteBuffer] cannot queue anything. *)
Definition window_full (k : KCP) : Prop :=
  (snd_wnd k <= WaitSnd k \/ rmt_wnd k <= WaitSnd k)%nat.

(** [n] calls of [TunnelPoll.Pick] in a row: the tunnels returned and the
    poll after them. *)
Fixpoint poll_picks (n : nat) (poll : TunnelPoll) : option (list tunnel * TunnelPoll) :=
  match n with
  | O => Some ([], poll)
  | S m =>
      let? (t, p) := TunnelPoll_Pick poll in
      let? (ts, p') := poll_picks m p in
      Some (t :: ts, p')
  end.

(** * Properties *)

(** ** Helper facts *)

Lemma go_select_inv {A} (cs : list (bool * A)) d a :
  go_select cs d a ->
  In (true, a) cs \/ (forallb (fun c => negb (fst c)) cs = true /\ d = Some a).
Proof. intros H; inversion H; subst; auto. Qed.

(** [Read]'s resize only ever raises the capacity of [recvbuf]. *)
Lemma grow_recvbuf_max s n : grow_recvbuf s n = set_recvcap s (Nat.max (recvcap s) n).
Proof.
  unfold grow_recvbuf; destruct (Nat.ltb_spec (recvcap s) n).
  - rewrite Nat.max_r by lia; reflexivity.
  - rewrite Nat.max_l by lia; destruct s; reflexivity.
Qed.

Lemma grow_recvbuf_kcp s n : kcp (grow_recvbuf s n) = kcp s.
Proof. rewrite grow_recvbuf_max; reflexivity. Qed.

Lemma PeekSize_head k m q : rcv_queue k = m :: q -> PeekSize k = Z.of_nat (length m).
Proof. intros H; unfold PeekSize; rewrite H; reflexivity. Qed.

Lemma tstep_done R s r s' p' : ~ tstep R s (PDone r) s' p'.
Proof. intros H; inversion H. Qed.

Lemma tsteps_done R s r s' p' : tsteps R s (PDone r) s' p' -> s' = s /\ p' = PDone r.
Proof.
  intros H; inversion H; subst; auto.
  exfalso; eapply tstep_done; eauto.
Qed.

Lemma set_nth_nth {A} i (v : A) l l' j d :
  set_nth i v l = Some l' -> nth j l' d = if Nat.eqb j i then v else nth j l d.
Proof.
  revert i j l'; induction l as [|x t IH]; intros i j l' H; destruct i; simpl in H;
    try discriminate.
  - injection H as <-. destruct j; reflexivity.
  - destruct (set_nth i v t) as [t'|] eqn:E; simpl in H; [|discriminate].
    injection H as <-. destruct j; simpl; [reflexivity|]. apply IH; exact E.
Qed.

Lemma nth_error_nth' {A} (l : list A) i x d : nth_error l i = Some x -> nth i l d = x.
Proof.
  revert i; induction l; intros [|i] H; simpl in *; try discriminate.
  - congruence.
  - auto.
Qed.

Lemma go_copy_fits {A} (dst src : list A) :
  (length src <= length dst)%nat -> go_copy dst src = src ++ skipn (length src) dst.
Proof.
  intros H; unfold go_copy.
  replace (Nat.min (length dst) (length src)) with (length src) by lia.
  rewrite firstn_all; reflexivity.
Qed.

Lemma length_go_copy {A} (dst src : list A) : length (go_copy dst src) = length dst.
Proof.
  unfold go_copy. rewrite length_app, length_firstn, length_skipn. lia.
Qed.

(** ** The [sync.Once] guards only go from [false] to [true] *)

Definition guards_le (s s' : UDPStream) : Prop :=
  (closeOnce s = true -> closeOnce s' = true) /\
  (sendFinOnce s = true -> sendFinOnce s' = true) /\
  (recvSynOnce s = true -> recvSynOnce s' = true) /\
  (recvFinOnce s = true -> recvFinOnce s' = true) /\
  (rstOnce s = true -> rstOnce s' = true).

Lemma guards_le_refl s : guards_le s s.
Proof. repeat split; auto. Qed.

Lemma guards_le_trans s1 s2 s3 : guards_le s1 s2 -> guards_le s2 s3 -> guards_le s1 s3.
Proof. unfold guards_le; intuition. Qed.

(** The functions that keep every guard as it is. *)
Definition same_guards (s s' : UDPStream) : Prop :=
  closeOnce s' = closeOnce s /\ sendFinOnce s' = sendFinOnce s /\
  recvSynOnce s' = recvSynOnce s /\ recvFinOnce s' = recvFinOnce s /\
  rstOnce s' = rstOnce s.

Lemma same_guards_le s s' : same_guards s s' -> guards_le s s'.
Proof. unfold same_guards, guards_le; intros (-> & -> & -> & -> & ->); repeat split; auto. Qed.

Lemma same_guards_trans s1 s2 s3 :
  same_guards s1 s2 -> same_guards s2 s3 -> same_guards s1 s3.
Proof. unfold same_guards; intuition congruence. Qed.

Ltac inv_opt :=
  repeat match goal with
  | H : Some _ = Some _ |- _ => injection H as H; subst
  | H : None = Some _ |- _ => discriminate H
  | H : (_, _) = (_, _) |- _ => injection H as; subst
  | H : context [match ?x with _ => _ end] |- _ => destruct x eqn:?
  end.

Lemma parallelTun_same_guards s x : same_guards s (snd (parallelTun s x)).
Proof.
  unfold parallelTun.
  destruct (N.leb _ _); [|destruct (IsZero _); [|destruct (After _ _)]];
    repeat split.
Qed.

Lemma output_same_guards s buf x pool s' :
  output s buf x pool = Some s' -> same_guards s s'.
Proof.
  unfold output. intros H.
  pose proof (parallelTun_same_guards s x) as G.
  destruct (parallelTun s x) as [k s1]; simpl in G.
  destruct (output_copies _ _ _ _ _ _); [|discriminate].
  injection H as <-. exact G.
Qed.

Lemma kcp_output_same_guards s buf size x pool s' :
  kcp_output s buf size x pool = Some s' -> same_guards s s'.
Proof.
  unfold kcp_output; destruct (Nat.leb _ _); intros H.
  - eapply output_same_guards; eauto.
  - injection H as <-; repeat split.
Qed.

Lemma output_all_same_guards segs s s' :
  output_all s segs = Some s' -> same_guards s s'.
Proof.
  revert s; induction segs as [|[b x] t IH]; simpl; intros s H.
  - injection H as <-; repeat split.
  - destruct (kcp_output _ _ _ _ _) as [s1|] eqn:E; [|discriminate].
    eapply same_guards_trans; [eapply kcp_output_same_guards; eauto | eauto].
Qed.

Lemma flush_same_guards s b s' : flush s b = Some s' -> same_guards s s'.
Proof.
  unfold flush; intros H.
  assert (G : forall s1, (if b then let (k', segs) := kcp_flush (kcp s) in
                          output_all (set_kcp s k') segs else Some s) = Some s1 ->
                         same_guards s s1).
  { intros s1; destruct b.
    - destruct (kcp_flush (kcp s)) as [k' segs]; intros E.
      eapply same_guards_trans; [|eapply output_all_same_guards; eauto]; repeat split.
    - intros E; injection E as <-; repeat split. }
  destruct (if b then _ else _) as [s1|] eqn:E1; [|discriminate].
  specialize (G s1 eq_refl).
  destruct (msgss s1); [destruct (_ && _)|].
  - injection H as <-. exact G.
  - injection H as <-. exact G.
  - destruct (handoff _ _ _ _); [|discriminate]. injection H as <-.
    destruct (_ && _); exact G.
Qed.

Section Proofs.

(** The resolver of addresses is arbitrary in what follows. *)
Variable Resolve : list byte -> UDPAddr + list byte.

(** C3.  The replication factor of [parallelTun]: [N] copies, and the
    window extended to [now + parallelTime], when [xmitMax >= parallelXmit];
    else [N] copies while the window expiry is a set instant in the future;
    else one copy. *)
Theorem parallelTun_replication :
  forall (s : UDPStream) (xmitMax : N),
    ((parallelXmit s <= xmitMax)%N ->
       fst (parallelTun s xmitMax) = length (tunnels s) /\
       parallelExpire (snd (parallelTun s xmitMax)) = now s + parallelTime s) /\
    ((xmitMax < parallelXmit s)%N -> IsZero (parallelExpire s) = false ->
       After (parallelExpire s) (now s) = true ->
       fst (parallelTun s xmitMax) = length (tunnels s)) /\
    ((xmitMax < parallelXmit s)%N ->
       (IsZero (parallelExpire s) = true \/ After (parallelExpire s) (now s) = false) ->
       fst (parallelTun s xmitMax) = 1%nat).
Proof.
  intros s x; unfold parallelTun.
  split; [|split].
  - intros H; apply N.leb_le in H; rewrite H; split; reflexivity.
  - intros H Hz Ha. destruct (N.leb_spec (parallelXmit s) x); [lia|].
    rewrite Hz, Ha; reflexivity.
  - intros H Hza. destruct (N.leb_spec (parallelXmit s) x); [lia|].
    destruct (IsZero (parallelExpire s)); [reflexivity|].
    destruct Hza as [Hz|Ha]; [discriminate|]. rewrite Ha; reflexivity.
Qed.

(** C9.  [Dial] on an accepted stream: its only step returns nil and leaves
    the stream as it was (no SYN, no flush, no wait), whatever the
    arguments. *)
Theorem dial_accepted_returns_nil :
  forall s locals timeout s' p',
    accepted s = true ->
    (tstep Resolve s (PDial locals timeout) s' p' <-> s' = s /\ p' = PDone (RErr None)).
Proof.
  intros s locals timeout s' p' Ha; split.
  - intros H; inversion H; subst; auto; congruence.
  - intros [-> ->]; apply t_dial_accepted; exact Ha.
Qed.

Lemma write_loop_same_guards s flag b (o : outcome (nat * option err)) :
  write_loop s flag b = Some o ->
  match o with ODone s' _ | OBlock s' _ => same_guards s s' end.
Proof.
  unfold write_loop; intros H.
  destruct (_ && _).
  - destruct (write_segments _ _ _ _ _) as [[k' tail]|]; [|discriminate].
    simpl in H.
    match type of H with
    | match ?x with Some _ => _ | None => _ end = _ => destruct x as [s2|] eqn:E
    end; [|discriminate].
    injection H as <-.
    assert (same_guards s s2).
    { destruct (_ || _).
      - eapply same_guards_trans; [|eapply flush_same_guards; eauto]; repeat split.
      - injection E as <-; repeat split. }
    eapply same_guards_trans; [eassumption|repeat split].
  - injection H as <-. unfold wait_or_timeout.
    destruct (IsZero _); [|destruct (After _ _)]; repeat split.
Qed.

Lemma recvSyn_guards_le s data s' n e :
  recvSyn Resolve s data = (s', n, e) -> guards_le s s'.
Proof.
  unfold recvSyn; intros H.
  destruct (recvSynOnce s) eqn:Hs.
  - injection H as <- _ _; apply guards_le_refl.
  - destruct (strings_Split data x20); [|destruct (_ || _); [|destruct (resolve_all _ _)]];
      injection H as <- _ _; repeat split; auto.
Qed.

Lemma reset_guards_le s : guards_le s (reset s).
Proof. unfold reset; destruct (rstOnce s); repeat split; auto. Qed.

Lemma cmdRead_guards_le s flag data blen s' n e :
  cmdRead Resolve s flag data blen = (s', n, e) -> guards_le s s'.
Proof.
  unfold cmdRead; intros H.
  repeat match type of H with context [if Byte.eqb ?a ?b then _ else _] =>
    destruct (Byte.eqb a b) end.
  all: try (injection H as <- _ _; apply guards_le_refl).
  - eapply recvSyn_guards_le; eauto.
  - unfold recvFin in H; injection H as <- _ _.
    destruct (recvFinOnce s); repeat split; auto.
  - unfold recvRst in H; injection H as <- _ _; apply reset_guards_le.
Qed.

Lemma read_loop_guards_le s blen (o : outcome (list byte * option err)) :
  read_loop Resolve s blen = Some o ->
  match o with ODone s' _ | OBlock s' _ => guards_le s s' end.
Proof.
  unfold read_loop; intros H.
  destruct (bufptr s) as [|x bp].
  - destruct (Z.ltb 0 _).
    + cbv zeta in H; rewrite grow_recvbuf_max in H; cbn [kcp set_recvcap] in H.
      destruct (Recv (kcp s)) as [[|flag data] k']; [discriminate|].
      destruct (cmdRead _ _ _ _ _) as [[s2 n] e] eqn:E.
      injection H as <-.
      apply cmdRead_guards_le in E.
      eapply guards_le_trans; [|eapply guards_le_trans; [exact E|]];
        apply same_guards_le; repeat split.
    + injection H as <-. unfold wait_or_timeout.
      destruct (IsZero _); [|destruct (After _ _)]; apply guards_le_refl.
  - injection H as <-. apply same_guards_le; repeat split.
Qed.

Lemma accept_body_guards_le s s' e :
  accept_body Resolve s = Some (s', e) -> guards_le s s'.
Proof.
  unfold accept_body; intros H.
  destruct (Z.leb _ 0).
  - injection H as <- _; apply guards_le_refl.
  - destruct (Nat.ltb _ _); [discriminate|].
    destruct (Recv (kcp s)) as [[|flag data] k'].
    + injection H as <- _; apply same_guards_le; repeat split.
    + destruct (Byte.eqb flag SYN).
      * destruct (recvSyn _ _ _) as [[s2 n] e2] eqn:E; injection H as <- _.
        eapply guards_le_trans; [|eapply recvSyn_guards_le; eauto].
        apply same_guards_le; repeat split.
      * injection H as <- _; apply same_guards_le; repeat split.
Qed.

(** Every step of every thread keeps the guards that are set. *)
Lemma tstep_guards_le s p s' p' : tstep Resolve s p s' p' -> guards_le s s'.
Proof.
  intros H; inversion H; subst; try apply guards_le_refl.
  all: try (apply same_guards_le; repeat split; fail).
  all: first
    [ solve [apply same_guards_le; exact (write_loop_same_guards _ _ _ _ H0)]
    | solve [apply same_guards_le; eapply flush_same_guards; eauto]
    | solve [exact (read_loop_guards_le _ _ _ H0)]
    | solve [eapply accept_body_guards_le; eauto]
    | solve [repeat split; auto] ].
Qed.

Lemma tsteps_guards_le s p s' p' : tsteps Resolve s p s' p' -> guards_le s s'.
Proof.
  induction 1; [apply guards_le_refl|].
  eapply guards_le_trans; [eapply tstep_guards_le|]; eauto.
Qed.

Lemma sys_steps_guards_le c c' : sys_steps Resolve c c' -> guards_le (fst c) (fst c').
Proof.
  induction 1 as [c|c c1 c' H _ IH]; [apply guards_le_refl|].
  eapply guards_le_trans; [|exact IH].
  destruct H; simpl.
  - eapply tstep_guards_le; eauto.
  - apply same_guards_le; repeat split.
Qed.

(** C6.  Once a SYN has been processed (whatever its outcome), every later
    SYN, after any interleaving of the stream's threads and of time, is
    consumed: [recvSyn] returns its length, no error, and leaves the stream
    (its tunnels and remotes in particular) as it was. *)
Theorem recvSyn_only_first :
  forall s data s1 n1 e1 ps s' ps' data',
    recvSyn Resolve s data = (s1, n1, e1) ->
    sys_steps Resolve (s1, ps) (s', ps') ->
    recvSyn Resolve s' data' = (s', length data', None).
Proof.
  intros s data s1 n1 e1 ps s' ps' data' H1 Hs.
  assert (Hset : recvSynOnce s1 = true).
  { unfold recvSyn in H1. destruct (recvSynOnce s) eqn:E.
    - injection H1 as <- _ _; exact E.
    - destruct (strings_Split data x20);
        [|destruct (_ || _); [|destruct (resolve_all _ _)]];
        injection H1 as <- _ _; reflexivity. }
  apply sys_steps_guards_le in Hs; simpl in Hs.
  destruct Hs as (_ & _ & Hsyn & _).
  unfold recvSyn; rewrite (Hsyn Hset); reflexivity.
Qed.

Lemma split_aux_not_nil sep cur l : split_aux sep cur l <> [].
Proof.
  revert cur; induction l as [|c t IH]; intros cur; simpl; [discriminate|].
  destruct (Byte.eqb c sep); [discriminate|apply IH].
Qed.

(** C8 (as the code does it).  The guard [len(remotes) == 0] of [recvSyn]
    never fires: splitting on spaces never gives an empty list.  So a first
    SYN whose payload holds no non-empty endpoint (an empty payload, or only
    spaces) is not rejected with SynInfoInvalid: when the selector returns
    one tunnel per (empty) endpoint and the resolver resolves them, it is
    accepted with no error and installs those tunnels and addresses. *)
Theorem recvSyn_empty_info_accepted :
  forall s data addrs,
    recvSynOnce s = false ->
    Forall (fun r => r = []) (strings_Split data x20) ->
    length (sel s (strings_Split data x20)) = length (strings_Split data x20) ->
    resolve_all Resolve (strings_Split data x20) = inl addrs ->
    strings_Split data x20 <> [] /\
    recvSyn Resolve s data =
      (set_remotes (set_tunnels (set_recvSynOnce s true) (sel s (strings_Split data x20))) addrs,
       length data, None).
Proof.
  intros s data addrs Hs _ Hl Ha.
  split; [apply split_aux_not_nil|].
  unfold recvSyn; rewrite Hs. cbv zeta.
  destruct (strings_Split data x20) as [|r rs] eqn:E.
  - exfalso; exact (split_aux_not_nil _ _ _ E).
  - simpl sel. rewrite Hl, Nat.eqb_refl. simpl length.
    simpl (Nat.eqb (S _) 0). simpl orb. rewrite Ha. reflexivity.
Qed.

(** ** Close and CloseWrite *)

Lemma tstep_close_again s s' p' :
  closeOnce s = true -> tstep Resolve s PClose s' p' ->
  s' = s /\ p' = PDone (RErr (Some ErrClosedPipe)).
Proof. intros Hc H; inversion H; subst; auto; congruence. Qed.

Lemma tstep_closewrite_again s s' p' :
  sendFinOnce s = true -> tstep Resolve s PCloseWrite s' p' ->
  s' = s /\ p' = PDone (RErr None).
Proof. intros Hc H; inversion H; subst; auto; congruence. Qed.

Lemma tsteps_close_again s s' r :
  closeOnce s = true -> tsteps Resolve s PClose s' (PDone r) ->
  s' = s /\ r = RErr (Some ErrClosedPipe).
Proof.
  intros Hc H; inversion H as [|? ? s1 p1 ? ? H1 H2]; subst.
  apply tstep_close_again in H1; [|exact Hc]. destruct H1 as [-> ->].
  apply tsteps_done in H2. destruct H2 as [-> E]; injection E; auto.
Qed.

Lemma tsteps_closewrite_again s s' r :
  sendFinOnce s = true -> tsteps Resolve s PCloseWrite s' (PDone r) ->
  s' = s /\ r = RErr None.
Proof.
  intros Hc H; inversion H as [|? ? s1 p1 ? ? H1 H2]; subst.
  apply tstep_closewrite_again in H1; [|exact Hc]. destruct H1 as [-> ->].
  apply tsteps_done in H2. destruct H2 as [-> E]; injection E; auto.
Qed.

(** After a call of Close that returned, the Close guard is set; after
    one of CloseWrite, the CloseWrite guard. *)
Lemma tsteps_close_sets s s' r :
  tsteps Resolve s PClose s' (PDone r) -> closeOnce s' = true.
Proof.
  intros H; inversion H as [|? ? s1 p1 ? ? H1 H2]; subst.
  apply tsteps_guards_le in H2.
  inversion H1; subst.
  - apply (proj1 H2); assumption.
  - apply (proj1 H2); reflexivity.
Qed.

Lemma tsteps_closewrite_sets s s' r :
  tsteps Resolve s PCloseWrite s' (PDone r) -> sendFinOnce s' = true.
Proof.
  intros H; inversion H as [|? ? s1 p1 ? ? H1 H2]; subst.
  apply tsteps_guards_le in H2.
  inversion H1; subst.
  - apply (proj1 (proj2 H2)); assumption.
  - apply (proj1 (proj2 H2)); reflexivity.
Qed.

Lemma calls_close_again n s s' rs :
  closeOnce s = true -> calls Resolve PClose n s s' rs ->
  s' = s /\ rs = repeat (RErr (Some ErrClosedPipe)) n.
Proof.
  intros Hc H; induction H as [s|n s s1 r s' rs H1 H2 IH]; [auto|].
  apply tsteps_close_again in H1; [|exact Hc]. destruct H1 as [-> ->].
  destruct (IH Hc) as [-> ->]; auto.
Qed.

Lemma calls_closewrite_again n s s' rs :
  sendFinOnce s = true -> calls Resolve PCloseWrite n s s' rs ->
  s' = s /\ rs = repeat (RErr None) n.
Proof.
  intros Hc H; induction H as [s|n s s1 r s' rs H1 H2 IH]; [auto|].
  apply tsteps_closewrite_again in H1; [|exact Hc]. destruct H1 as [-> ->].
  destruct (IH Hc) as [-> ->]; auto.
Qed.

(** A thread inside the write of Close or of CloseWrite returns nil. *)
Lemma tsteps_write_cont_nil k s0 p0 s' pd :
  (k = KClose \/ k = KCloseWrite) ->
  tsteps Resolve s0 p0 s' pd ->
  (exists f b, p0 = PWrite f b k) \/ (exists f b, p0 = PWriteLoop f b k) \/
  (exists f b t, p0 = PWriteWait f b t k) \/ (exists n e, p0 = PWriteRet k n e) \/
  p0 = PDone (RErr None) ->
  forall r, pd = PDone r -> r = RErr None.
Proof.
  intros Hk Hs. induction Hs as [s p|s p s1 p1 s' p' H1 _ IH].
  - intros Hp r ->. destruct Hp as [(?&?&E)|[(?&?&E)|[(?&?&?&E)|[(?&?&E)| E]]]];
      try discriminate. injection E; auto.
  - intros Hp. apply IH.
    destruct Hp as [(?&?&->)|[(?&?&->)|[(?&?&?&->)|[(?&?&->)| ->]]]];
      inversion H1; subst; eauto 10; destruct Hk; discriminate.
Qed.

(** The first Close call returns nil; so does every CloseWrite call. *)
Lemma tsteps_close_first s s' r :
  closeOnce s = false -> tsteps Resolve s PClose s' (PDone r) -> r = RErr None.
Proof.
  intros Hc H; inversion H as [|? ? s1 p1 ? ? H1 H2]; subst.
  inversion H1; subst; [congruence|].
  eapply (tsteps_write_cont_nil KClose); [left; reflexivity|exact H2|left; eauto|reflexivity].
Qed.

Lemma tsteps_closewrite_nil s s' r :
  tsteps Resolve s PCloseWrite s' (PDone r) -> r = RErr None.
Proof.
  intros H; inversion H as [|? ? s1 p1 ? ? H1 H2]; subst.
  inversion H1; subst.
  - apply tsteps_done in H2; destruct H2 as [_ E]; injection E; auto.
  - eapply (tsteps_write_cont_nil KCloseWrite);
      [right; reflexivity|exact H2|left; eauto|reflexivity].
Qed.

(** C4.  [n + 1] calls of Close in a row end in the state the first call
    left, which returned nil on a stream not closed yet, and the later calls
    return closed-pipe; [n + 1] calls of CloseWrite end in the state the
    first call left and all return nil. *)
Theorem close_closewrite_idempotent :
  forall n s s1 rs s2 rs2,
    (calls Resolve PClose (S n) s s1 rs ->
       exists r1, tsteps Resolve s PClose s1 (PDone r1) /\
                  rs = r1 :: repeat (RErr (Some ErrClosedPipe)) n /\
                  (closeOnce s = false -> r1 = RErr None)) /\
    (calls Resolve PCloseWrite (S n) s s2 rs2 ->
       tsteps Resolve s PCloseWrite s2 (PDone (RErr None)) /\
        rs2 = repeat (RErr None) (S n)).
Proof.
  intros n s s1 rs s2 rs2; split.
  - intros H; inversion H as [|? ? s' r1 ? rest H1 H2]; subst.
    pose proof (tsteps_close_sets _ _ _ H1) as Hc.
    destruct (calls_close_again _ _ _ _ Hc H2) as [-> ->].
    exists r1; split; [exact H1|split; [reflexivity|]].
    intros Hf; eapply tsteps_close_first; eauto.
  - intros H; inversion H as [|? ? s' r1 ? rest H1 H2]; subst.
    pose proof (tsteps_closewrite_sets _ _ _ H1) as Hc.
    destruct (calls_closewrite_again _ _ _ _ Hc H2) as [-> ->].
    pose proof (tsteps_closewrite_nil _ _ _ H1) as ->.
    split; [exact H1|reflexivity].
Qed.

(** The first select of WriteBuffer on a half-closed stream that is not
    closed: the write returns at once, closed-pipe unless the stream is also
    reset. *)
Lemma write_entry_halfclosed s e :
  chSendFinEvent s = true -> chClose s = false ->
  go_select (write_entry_cases s) (Some None) e ->
  exists e', e = Some e' /\ (chRst s = false -> e' = ErrClosedPipe).
Proof.
  intros Hf Hc H. apply go_select_inv in H.
  unfold write_entry_cases in H; rewrite Hf, Hc in H; simpl in H.
  destruct H as [H|[H _]].
  - destruct H as [E|[E|[E|[]]]]; try discriminate.
    + injection E as E1 <-. eexists; split; [reflexivity|]. congruence.
    + injection E as <-. eexists; split; [reflexivity|auto].
  - rewrite andb_false_r in H; discriminate.
Qed.

(** C10.  Close after CloseWrite: the RST write fails at once (closed-pipe
    while the stream is not reset) without touching the ARQ engine, and
    Close still returns nil, closes [chClose] and arms the clean timer. *)
Theorem close_after_closewrite :
  forall s,
    chSendFinEvent s = true -> closeOnce s = false -> chClose s = false ->
    (forall s1 p1, tstep Resolve s PClose s1 p1 ->
       s1 = set_closeOnce s true /\ p1 = PWrite RST [] KClose) /\
    (forall s2 p2, tstep Resolve (set_closeOnce s true) (PWrite RST [] KClose) s2 p2 ->
       s2 = set_closeOnce s true /\
      exists e, p2 = PWriteRet KClose 0 (Some e) /\ (chRst s = false -> e = ErrClosedPipe)) /\
    (forall s' r, tsteps Resolve s PClose s' (PDone r) ->
       r = RErr None /\ s' = close_rest (set_closeOnce s true) /\
      kcp s' = kcp s /\ msgss s' = msgss s /\ wire s' = wire s /\
      chClose s' = true /\ chClean s' = Some (now s + CleanTimeout)).
Proof.
  intros s Hf Ho Hc.
  assert (A : forall s1 p1, tstep Resolve s PClose s1 p1 ->
                s1 = set_closeOnce s true /\ p1 = PWrite RST [] KClose).
  { intros s1 p1 H; inversion H; subst; [congruence|auto]. }
  assert (B : forall s2 p2, tstep Resolve (set_closeOnce s true) (PWrite RST [] KClose) s2 p2 ->
                s2 = set_closeOnce s true /\
                exists e, p2 = PWriteRet KClose 0 (Some e) /\ (chRst s = false -> e = ErrClosedPipe)).
  { intros s2 p2 H; inversion H; subst.
    - apply write_entry_halfclosed in H6; [|exact Hf|exact Hc].
      destruct H6 as (e' & E & He). injection E as <-.
      split; [reflexivity|]. exists e; auto.
    - apply write_entry_halfclosed in H6; [|exact Hf|exact Hc].
      destruct H6 as (e' & E & _); discriminate. }
  split; [exact A|split; [exact B|]].
  intros s' r H.
  inversion H as [|? ? s1 p1 ? ? H1 H2]; subst.
  apply A in H1; destruct H1 as [-> ->].
  inversion H2 as [|? ? s3 p3 ? ? H3 H4]; subst.
  apply B in H3; destruct H3 as [-> (e & -> & _)].
  inversion H4 as [|? ? s5 p5 ? ? H5 H6]; subst.
  inversion H5; subst.
  apply tsteps_done in H6; destruct H6 as [-> E]; injection E as <-.
  repeat split; reflexivity.
Qed.

(** ** Reading a message with an unknown tag *)

Lemma byte_neq_eqb a b : a <> b -> Byte.eqb a b = false.
Proof.
  intros H; destruct (Byte.eqb a b) eqn:E; [|reflexivity].
  exfalso; apply H, Byte.byte_dec_bl, E.
Qed.

Lemma read_loop_unknown s blen flag data q :
  bufptr s = [] -> rcv_queue (kcp s) = (flag :: data) :: q ->
  flag <> PSH -> flag <> SYN -> flag <> FIN -> flag <> HRT -> flag <> RST ->
  read_loop Resolve s blen =
    Some (ODone (add_BytesReceived
                   (set_bufptr (set_kcp (grow_recvbuf s (length (flag :: data)))
                                        (snd (Recv (kcp s)))) data) 1)
                ([], Some errStreamFlag)).
Proof.
  intros Hb Hq H1 H2 H3 H4 H5.
  unfold read_loop; rewrite Hb.
  rewrite (PeekSize_head _ _ _ Hq), Nat2Z.id. simpl Z.ltb. cbv zeta.
  rewrite grow_recvbuf_kcp.
  unfold Recv; rewrite Hq.
  unfold cmdRead.
  rewrite (byte_neq_eqb _ _ H1), (byte_neq_eqb _ _ H2), (byte_neq_eqb _ _ H3),
          (byte_neq_eqb _ _ H4), (byte_neq_eqb _ _ H5).
  reflexivity.
Qed.

(** C2 (as the code does it).  A Read that consumes a message whose first
    byte is none of the five tags returns no bytes and the stream-flag error,
    and does not reset the stream: the reset signal and guard and the ARQ
    send buffers are as they were. *)
Theorem read_unknown_tag_no_reset :
  forall s blen flag data q s' r,
    chClose s = false -> chRst s = false -> chRecvFinEvent s = false ->
    bufptr s = [] -> rcv_queue (kcp s) = (flag :: data) :: q ->
    flag <> PSH -> flag <> SYN -> flag <> FIN -> flag <> HRT -> flag <> RST ->
    tsteps Resolve s (PRead blen) s' (PDone r) ->
    r = RRead [] (Some errStreamFlag) /\ chRst s' = false /\ rstOnce s' = rstOnce s /\
    snd_queue (kcp s') = snd_queue (kcp s) /\ snd_buf (kcp s') = snd_buf (kcp s).
Proof.
  intros s blen flag data q s' r Hc Hr Hf Hb Hq H1 H2 H3 H4 H5 H.
  pose proof (read_loop_unknown s blen flag data q Hb Hq H1 H2 H3 H4 H5) as RL.
  assert (Hsel : forall e, go_select (read_entry_cases s) (Some None) e -> e = None).
  { intros e Hs; apply go_select_inv in Hs; unfold read_entry_cases in Hs.
    rewrite Hc, Hr, Hf in Hs; simpl in Hs.
    destruct Hs as [Hs|[_ E]]; [|congruence].
    destruct Hs as [E|[E|[E|[]]]]; discriminate. }
  inversion H as [|? ? s1 p1 ? ? S1 T1]; subst.
  inversion S1; subst.
  - match goal with Hx : go_select _ _ (Some _) |- _ => apply Hsel in Hx; discriminate end.
  - inversion T1 as [|? ? s2 p2 ? ? S2 T2]; subst.
    inversion S2; subst;
      match goal with Hx : read_loop _ _ _ = _ |- _ => rewrite RL in Hx; rename Hx into E end;
      try discriminate.
    injection E as <- <- <-.
    apply tsteps_done in T2; destruct T2 as [-> E]; injection E as <-.
    unfold Recv; rewrite Hq, grow_recvbuf_max.
    repeat split; assumption.
Qed.

(** ** The copies queued by the dispatcher *)

(** What every copy queued for tunnel [i] holds: the UUID, then the bytes
    of the segment from offset 16 on, to the address [remotes[i]]. *)
Definition copy_ok (s : UDPStream) (seg : list byte) (i : nat) (m : Message) : Prop :=
  exists bts, Buffers m = [bts] /\
    firstn gouuid_Size bts = uuid s /\ skipn gouuid_Size bts = skipn gouuid_Size seg /\
    length bts = length seg /\ nth_error (remotes s) i = Some (Addr m).

Lemma output_copies_ok s buf pool cnt i ms ms' :
  length (uuid s) = gouuid_Size ->
  output_copies s buf pool i cnt ms = Some ms' ->
  forall j, exists new, nth j ms' [] = nth j ms [] ++ new /\ Forall (copy_ok s buf j) new.
Proof.
  intros Hu. revert i ms. induction cnt as [|c IH]; intros i ms H j; cbn [output_copies] in H.
  - injection H as <-. exists []; rewrite app_nil_r; split; [reflexivity|constructor].
  - destruct (Nat.ltb (length (pool i)) (length buf)) eqn:Lp; [discriminate|].
    apply Nat.ltb_ge in Lp.
    set (bts1 := go_copy (firstn (length buf) (pool i)) (uuid s)) in H.
    destruct (Nat.ltb (length bts1) gouuid_Size) eqn:L1; [discriminate|].
    apply Nat.ltb_ge in L1.
    destruct (nth_error (remotes s) i) as [addr|] eqn:Ea; [|discriminate].
    destruct (nth_error ms i) as [qi|] eqn:Eq; [|discriminate].
    set (bts := firstn gouuid_Size bts1 ++ go_copy (skipn gouuid_Size bts1) (skipn gouuid_Size buf)) in H.
    destruct (set_nth i (qi ++ [mkMessage [bts] addr]) ms) as [ms1|] eqn:Es; [|discriminate].
    destruct (IH (S i) ms1 H j) as (new & Hn & Hf).
    assert (Lb : length (firstn (length buf) (pool i)) = length buf)
      by (rewrite length_firstn; lia).
    assert (Lbts1 : length bts1 = length buf) by (unfold bts1; rewrite length_go_copy; exact Lb).
    assert (Ebts1 : bts1 = uuid s ++ skipn gouuid_Size (firstn (length buf) (pool i))).
    { unfold bts1; rewrite go_copy_fits; [rewrite Hu; reflexivity|].
      rewrite Hu, Lb; rewrite Lbts1 in L1; exact L1. }
    assert (Ebts : bts = uuid s ++ skipn gouuid_Size buf).
    { unfold bts. rewrite Ebts1 at 1.
      rewrite firstn_app, Hu, Nat.sub_diag, firstn_O, app_nil_r, firstn_all2 by lia.
      rewrite go_copy_fits by (rewrite !length_skipn; lia).
      rewrite (skipn_all2 (skipn gouuid_Size bts1)); [rewrite app_nil_r; reflexivity|].
      rewrite !length_skipn, Lbts1; lia. }
    assert (Hm : copy_ok s buf i (mkMessage [bts] addr)).
    { exists bts; split; [reflexivity|]. rewrite Ebts.
      split; [rewrite firstn_app, Hu, Nat.sub_diag, firstn_O, app_nil_r, <- Hu, firstn_all;
              reflexivity|].
      split; [rewrite skipn_app, Hu, Nat.sub_diag, skipn_O, <- Hu, skipn_all;
              reflexivity|].
      split; [|exact Ea].
      rewrite length_app, length_skipn, Hu. rewrite Lbts1 in L1. lia. }
    rewrite Hn, (set_nth_nth _ _ _ _ _ _ Es).
    destruct (Nat.eqb_spec j i) as [->|Hji].
    + exists (mkMessage [bts] addr :: new).
      rewrite (nth_error_nth' _ _ _ _ Eq), <- app_assoc. split; [reflexivity|].
      constructor; assumption.
    + exists new; split; [reflexivity|exact Hf].
Qed.

Lemma parallelTun_keeps s x :
  uuid (snd (parallelTun s x)) = uuid s /\ remotes (snd (parallelTun s x)) = remotes s /\
  msgss (snd (parallelTun s x)) = msgss s.
Proof.
  unfold parallelTun.
  destruct (N.leb _ _); [|destruct (IsZero _); [|destruct (After _ _)]]; repeat split.
Qed.

Lemma nth_app_repeat_nil {A} (l : list (list A)) n i : nth i (l ++ repeat [] n) [] = nth i l [].
Proof.
  destruct (Nat.ltb_spec i (length l)).
  - apply app_nth1; assumption.
  - rewrite app_nth2 by assumption. rewrite (nth_overflow l) by assumption.
    destruct (Nat.ltb_spec (i - length l) n).
    + apply nth_repeat.
    + apply nth_overflow; rewrite repeat_length; assumption.
Qed.

(** C5.  Every copy that one call of the output callback queues for tunnel
    [i] starts with the stream's UUID, carries the bytes [16, size) of the
    segment the ARQ engine produced, and is addressed to [remotes[i]]; the
    copies queued before are kept. *)
Theorem output_copies_uuid_remote :
  forall s buf size xmitMax pool s',
    length (uuid s) = gouuid_Size ->
    kcp_output s buf size xmitMax pool = Some s' ->
    forall i, exists new,
      nth i (msgss s') [] = nth i (msgss s) [] ++ new /\
      Forall (copy_ok s (firstn size buf) i) new.
Proof.
  intros s buf size x pool s' Hu H i.
  unfold kcp_output in H. destruct (Nat.leb _ _).
  - unfold output in H.
    pose proof (parallelTun_keeps s x) as (Eu & Er & Em).
    destruct (parallelTun s x) as [k s1]; simpl in Eu, Er, Em.
    destruct (output_copies _ _ _ _ _ _) as [ms'|] eqn:E; [|discriminate].
    injection H as <-. simpl.
    rewrite <- Eu in Hu.
    destruct (output_copies_ok _ _ _ _ _ _ _ Hu E i) as (new & Hn & Hf).
    exists new; split.
    + rewrite Hn, nth_app_repeat_nil, Em; reflexivity.
    + unfold copy_ok in *. rewrite Eu, Er in Hf. exact Hf.
  - injection H as <-. exists []; rewrite app_nil_r; split; [reflexivity|constructor].
Qed.
End Proofs.

(** ** Concrete runs *)

(** [Write] of 2000 bytes on [stream0]: with an MSS of 1360 the buffer is
    submitted as a segment of 1359 user bytes and a tail of 641. *)
Definition payload2000 : list byte := repeat x61 2000.

(** C1 (as the code does it).  On [stream0], every run of [Write] with 2000
    bytes returns 641, the length of the last fragment, and such a run
    exists; the 2000 bytes were all submitted. *)
Theorem write_returns_tail_length :
  (exists s', tsteps resolve_any stream0 (PWrite PSH payload2000 KWrite) s' (PDone (RInt 641 None)) /\
     concat (map (skipn 1) (snd_queue (kcp s') ++ map fst (snd_buf (kcp s')))) = payload2000) /\
  (forall s' r, tsteps resolve_any stream0 (PWrite PSH payload2000 KWrite) s' (PDone r) ->
     r = RInt 641 None).
Proof.
  split.
  - eexists; split.
    + eapply tsteps_step.
      { apply t_write_entry. apply select_default. reflexivity. }
      eapply tsteps_step.
      { apply t_write_done. vm_compute. reflexivity. }
      eapply tsteps_step; [apply t_ret_write|apply tsteps_refl].
    + vm_compute. reflexivity.
  - intros s' r H.
    inversion H as [|? ? s1 p1 ? ? S1 T1]; subst.
    inversion S1; subst.
    + match goal with Hx : go_select _ _ (Some _) |- _ =>
        apply go_select_inv in Hx; simpl in Hx;
        destruct Hx as [[E|[E|[E|[]]]]|[_ E]]; discriminate end.
    + inversion T1 as [|? ? s2 p2 ? ? S2 T2]; subst.
      inversion S2; subst;
        match goal with Hx : write_loop _ _ _ = _ |- _ => vm_compute in Hx; rename Hx into E end;
        try discriminate.
      injection E as _ <- <-.
      inversion T2 as [|? ? s3 p3 ? ? S3 T3]; subst.
      inversion S3; subst.
      apply tsteps_done in T3; destruct T3 as [_ E]; injection E as <-.
      reflexivity.
Qed.

(** A thread of the list [ps] takes one step. *)
Ltac thread_step n :=
  eapply sys_trans; [eapply sys_thread with (i := n); [reflexivity| |reflexivity]|].

(** [stream0] with a send window of one segment. *)
Definition stream_w1 : UDPStream := set_kcp stream0 (mkKCP 1360 1 32 [] [] []).

(** C7 (as the code does it).  A writer and [CloseWrite] on [stream_w1]:
    the FIN fills the window, the writer blocks, and when the send-FIN
    signal fires it returns io.EOF, not the closed-pipe error that a writer
    entering on the half-closed stream gets. *)
Theorem halfclose_blocked_writer_eof :
  (exists s',
    sys_steps resolve_any (stream_w1, [PWrite PSH [x61] KWrite; PCloseWrite])
      (s', [PDone (RInt 0 (Some EOF)); PDone (RErr None)]) /\
    chSendFinEvent s' = true /\ chClose s' = false /\ chRst s' = false) /\
  (forall s e, chSendFinEvent s = true -> chClose s = false -> chRst s = false ->
     go_select (write_entry_cases s) (Some None) e -> e = Some ErrClosedPipe).
Proof.
  split.
  - eexists; split.
    + thread_step 1%nat. { apply t_closewrite_first; reflexivity. }
      thread_step 1%nat. { apply t_write_entry; apply select_default; reflexivity. }
      thread_step 1%nat. { apply t_write_done; vm_compute; reflexivity. }
      thread_step 0%nat. { apply t_write_entry; apply select_default; vm_compute; reflexivity. }
      thread_step 0%nat. { apply t_write_block; vm_compute; reflexivity. }
      thread_step 1%nat. { apply t_ret_closewrite. }
      thread_step 0%nat.
      { apply t_write_wake_err; apply select_case; vm_compute; right; right; left; reflexivity. }
      thread_step 0%nat. { apply t_ret_write. }
      apply sys_refl.
    + vm_compute; auto.
  - intros s e Hf Hc Hr H.
    apply go_select_inv in H; unfold write_entry_cases in H; rewrite Hf, Hc, Hr in H; simpl in H.
    destruct H as [[E|[E|[E|[]]]]|[E _]]; congruence.
Qed.

(** [stream0] with one received message whose tag is ['9']. *)
Definition streamR : UDPStream := set_kcp stream0 (mkKCP 1360 32 32 [] [] [[x39; x61]]).

Definition streamR_after : UDPStream :=
  add_BytesReceived (set_bufptr (set_kcp streamR (snd (Recv (kcp streamR)))) [x61]) 1.

Lemma streamR_read_run :
  tsteps resolve_any streamR (PRead 10) streamR_after (PDone (RRead [] (Some errStreamFlag))).
Proof.
  eapply tsteps_step; [apply t_read_entry; apply select_default; reflexivity|].
  eapply tsteps_step; [apply t_read_done; vm_compute; reflexivity|].
  apply tsteps_refl.
Qed.

(** C2: a Read that consumes the message tagged ['9'] returns the
    stream-flag error, and the stream is not reset. *)
Lemma read_unknown_tag_counterexample :
  exists s', tsteps resolve_any streamR (PRead 10) s' (PDone (RRead [] (Some errStreamFlag))) /\
    chRst s' = false /\ rstOnce s' = false /\ snd_queue (kcp s') = [] /\ chClean s' = None.
Proof.
  exists streamR_after; split; [exact streamR_read_run|].
  repeat split.
Qed.

Lemma read_unknown_tag_no_reset_witness :
  exists s' r,
    tsteps resolve_any streamR (PRead 10) s' (PDone r) /\
    (r = RRead [] (Some errStreamFlag) /\ chRst s' = false /\ rstOnce s' = rstOnce streamR /\
     snd_queue (kcp s') = snd_queue (kcp streamR) /\ snd_buf (kcp s') = snd_buf (kcp streamR)).
Proof.
  exists streamR_after, (RRead [] (Some errStreamFlag)).
  split; [exact streamR_read_run|].
  apply (read_unknown_tag_no_reset resolve_any streamR 10 x39 [x61] []);
    try reflexivity; try discriminate.
  exact streamR_read_run.
Defined.

(** A segment of 42 bytes as the ARQ engine hands it to the callback. *)
Definition seg42 : list byte := repeat x00 40 ++ [x61; x62].

Definition out42 : UDPStream :=
  match kcp_output stream0 seg42 42 0%N xmitBuf_Get with Some s => s | None => stream0 end.

Lemma output_copies_uuid_remote_witness :
  length (uuid stream0) = gouuid_Size /\
  kcp_output stream0 seg42 42 0%N xmitBuf_Get = Some out42 /\
  (forall i, exists new,
     nth i (msgss out42) [] = nth i (msgss stream0) [] ++ new /\
     Forall (copy_ok stream0 (firstn 42 seg42) i) new).
Proof.
  assert (E : kcp_output stream0 seg42 42 0%N xmitBuf_Get = Some out42)
    by (vm_compute; reflexivity).
  split; [reflexivity|split; [exact E|]].
  apply (output_copies_uuid_remote stream0 seg42 42 0%N xmitBuf_Get out42); [reflexivity|exact E].
Defined.

(** A SYN naming one endpoint, ["a"]. *)
Definition syn_a : list byte := [x61].

Definition syn_a_result : UDPStream * nat * option err := recvSyn resolve_any stream0 syn_a.

Definition syn_a_later : UDPStream :=
  set_now (fst (fst syn_a_result)) (now (fst (fst syn_a_result)) + Second).

Lemma recvSyn_only_first_witness :
  recvSyn resolve_any stream0 syn_a =
    (fst (fst syn_a_result), snd (fst syn_a_result), snd syn_a_result) /\
  sys_steps resolve_any (fst (fst syn_a_result), [PCloseWrite]) (syn_a_later, [PCloseWrite]) /\
  recvSyn resolve_any syn_a_later [x62] = (syn_a_later, length [x62], None).
Proof.
  assert (E : recvSyn resolve_any stream0 syn_a =
                (fst (fst syn_a_result), snd (fst syn_a_result), snd syn_a_result))
    by (vm_compute; reflexivity).
  assert (R : sys_steps resolve_any (fst (fst syn_a_result), [PCloseWrite])
                (syn_a_later, [PCloseWrite])).
  { eapply sys_trans; [apply (sys_tick resolve_any _ _ Second)|apply sys_refl].
    unfold Second; lia. }
  split; [exact E|split; [exact R|]].
  exact (recvSyn_only_first resolve_any stream0 syn_a _ _ _ [PCloseWrite] _ [PCloseWrite] [x62] E R).
Defined.

(** The address [net.ResolveUDPAddr("udp", "")] returns, with no error. *)
Definition zeroAddr : UDPAddr := mkUDPAddr [] 0.

(** A resolver that, like [net.ResolveUDPAddr], resolves the empty string
    to the zero address (and anything else to [addr1]). *)
Definition resolve_empty : list byte -> UDPAddr + list byte :=
  fun r => match r with [] => inl zeroAddr | _ => inl addr1 end.

(** C8: a first SYN with an empty payload on [stream0] is accepted with
    no error; its one empty endpoint is resolved to the zero address. *)
Lemma recvSyn_empty_info_accepted_witness :
  recvSynOnce stream0 = false /\
  Forall (fun r => r = []) (strings_Split [] x20) /\
  length (sel stream0 (strings_Split [] x20)) = length (strings_Split [] x20) /\
  resolve_all resolve_empty (strings_Split [] x20) = inl [zeroAddr] /\
  (strings_Split [] x20 <> [] /\
   recvSyn resolve_empty stream0 [] =
     (set_remotes (set_tunnels (set_recvSynOnce stream0 true) (sel stream0 (strings_Split [] x20)))
        [zeroAddr], length (@nil byte), None)).
Proof.
  assert (Hf : Forall (fun r => r = []) (strings_Split [] x20))
    by (simpl; repeat constructor).
  split; [reflexivity|split; [exact Hf|split; [reflexivity|split; [reflexivity|]]]].
  exact (recvSyn_empty_info_accepted resolve_empty stream0 [] [zeroAddr] eq_refl Hf
           eq_refl eq_refl).
Defined.

(** [stream0] on the passive side. *)
Definition stream_acc : UDPStream := set_accepted stream0 true.

Lemma dial_accepted_returns_nil_witness :
  accepted stream_acc = true /\
  (tstep resolve_any stream_acc (PDial [syn_a] Second) stream_acc (PDone (RErr None)) <->
   stream_acc = stream_acc /\ PDone (RErr None) = PDone (RErr None)).
Proof.
  split; [reflexivity|].
  apply (dial_accepted_returns_nil resolve_any stream_acc [syn_a] Second stream_acc
           (PDone (RErr None))).
  reflexivity.
Defined.

(** [stream0] after [CloseWrite]. *)
Definition stream_hc : UDPStream := set_chSendFinEvent (set_sendFinOnce stream0 true) true.

Lemma close_after_closewrite_witness :
  chSendFinEvent stream_hc = true /\ closeOnce stream_hc = false /\ chClose stream_hc = false /\
  ((forall s1 p1, tstep resolve_any stream_hc PClose s1 p1 ->
      s1 = set_closeOnce stream_hc true /\ p1 = PWrite RST [] KClose) /\
   (forall s2 p2,
      tstep resolve_any (set_closeOnce stream_hc true) (PWrite RST [] KClose) s2 p2 ->
      s2 = set_closeOnce stream_hc true /\
      exists e, p2 = PWriteRet KClose 0 (Some e) /\ (chRst stream_hc = false -> e = ErrClosedPipe)) /\
   (forall s' r, tsteps resolve_any stream_hc PClose s' (PDone r) ->
      r = RErr None /\ s' = close_rest (set_closeOnce stream_hc true) /\
      kcp s' = kcp stream_hc /\ msgss s' = msgss stream_hc /\ wire s' = wire stream_hc /\
      chClose s' = true /\ chClean s' = Some (now stream_hc + CleanTimeout))).
Proof.
  split; [reflexivity|split; [reflexivity|split; [reflexivity|]]].
  apply (close_after_closewrite resolve_any stream_hc); reflexivity.
Defined.

(** * Further properties of the stream *)
Section More.

Variable Resolve : list byte -> UDPAddr + list byte.

(** ** Read *)


Lemma read_entry_open s e :
  read_open s -> go_select (read_entry_cases s) (Some None) e -> e = None.
Proof.
  intros (Hc & Hr & Hf) H; apply go_select_inv in H; unfold read_entry_cases in H.
  rewrite Hc, Hr, Hf in H; simpl in H.
  destruct H as [[E|[E|[E|[]]]]|[_ E]]; congruence.
Qed.

(** A [Read] whose first loop iteration returns: its only outcome. *)
Lemma read_run_done s blen s1 d e :
  read_open s -> read_loop Resolve s blen = Some (ODone s1 (d, e)) ->
  forall s' r, tsteps Resolve s (PRead blen) s' (PDone r) <-> s' = s1 /\ r = RRead d e.
Proof.
  intros Ho RL s' r; split.
  - intros H.
    inversion H as [|? ? s2 p2 ? ? S1 T1]; subst.
    inversion S1; subst.
    + match goal with Hx : go_select _ _ (Some _) |- _ =>
        apply (read_entry_open _ _ Ho) in Hx; discriminate end.
    + inversion T1 as [|? ? s3 p3 ? ? S2 T2]; subst.
      inversion S2; subst;
        match goal with Hx : read_loop _ _ _ = _ |- _ => rewrite RL in Hx; rename Hx into E end;
        try discriminate.
      injection E as <- <- <-.
      apply tsteps_done in T2; destruct T2 as [-> E]; injection E as <-; auto.
  - intros [-> ->].
    eapply tsteps_step; [apply t_read_entry; apply select_default;
                         destruct Ho as (Hc & Hr & Hf); unfold read_entry_cases;
                         rewrite Hc, Hr, Hf; reflexivity|].
    eapply tsteps_step; [apply t_read_done; exact RL|apply tsteps_refl].
Qed.

Lemma read_loop_buffered s blen :
  bufptr s <> [] ->
  read_loop Resolve s blen =
    Some (ODone (add_BytesReceived
                   (set_bufptr s (skipn (Nat.min blen (length (bufptr s))) (bufptr s)))
                   (Nat.min blen (length (bufptr s))))
                (firstn (Nat.min blen (length (bufptr s))) (bufptr s), None)).
Proof.
  intros Hb; unfold read_loop; destruct (bufptr s); [congruence|reflexivity].
Qed.

(** Reading from the leftover of an earlier message: the first
    [n = min(len(b), len(leftover))] bytes are returned, and the bytes
    returned and the bytes left make up the leftover; the new state is the
    old one with only the leftover and the received-bytes counter (raised
    by [n]) changed. *)
Theorem read_buffered_split :
  forall s blen s' r,
    read_open s -> bufptr s <> [] ->
    tsteps Resolve s (PRead blen) s' (PDone r) ->
    let n := Nat.min blen (length (bufptr s)) in
    r = RRead (firstn n (bufptr s)) None /\ firstn n (bufptr s) ++ bufptr s' = bufptr s /\
    s' = add_BytesReceived (set_bufptr s (skipn n (bufptr s))) n.
Proof.
  intros s blen s' r Ho Hb H n.
  apply (proj1 (read_run_done _ _ _ _ _ Ho (read_loop_buffered s blen Hb) _ _)) in H.
  destruct H as [-> ->].
  split; [reflexivity|split; [apply firstn_skipn|reflexivity]].
Qed.

Lemma recv_some k m q :
  rcv_queue k = m :: q ->
  Recv k = (m, mkKCP (mss k) (snd_wnd k) (rmt_wnd k) (snd_queue k) (snd_buf k) q).
Proof. intros H; unfold Recv; rewrite H; reflexivity. Qed.

(** A data ([PSH]) message: the first [min(len(b), len(data))] bytes are
    returned, the rest is kept for the next [Read], and the counter grows
    by the bytes taken plus the tag. *)
Theorem read_psh_message :
  forall s blen data q s' r,
    read_open s -> bufptr s = [] -> rcv_queue (kcp s) = (PSH :: data) :: q ->
    tsteps Resolve s (PRead blen) s' (PDone r) ->
    let n := Nat.min blen (length data) in
    r = RRead (firstn n data) None /\ bufptr s' = skipn n data /\
    firstn n data ++ bufptr s' = data /\ rcv_queue (kcp s') = q /\
    BytesReceived (snmp s') = u64_add (BytesReceived (snmp s)) (Z.of_nat (S n)).
Proof.
  intros s blen data q s' r Ho Hb Hq H n.
  assert (RL : read_loop Resolve s blen =
    Some (ODone (add_BytesReceived
                   (set_bufptr (set_kcp (grow_recvbuf s (length (PSH :: data)))
                                        (snd (Recv (kcp s)))) (skipn n data)) (S n))
                (firstn n data, None))).
  { unfold read_loop; rewrite Hb, (PeekSize_head _ _ _ Hq), Nat2Z.id.
    simpl Z.ltb. cbv zeta. rewrite grow_recvbuf_kcp, (recv_some _ _ _ Hq). reflexivity. }
  apply (proj1 (read_run_done _ _ _ _ _ Ho RL _ _)) in H.
  destruct H as [-> ->]. rewrite grow_recvbuf_max.
  simpl; rewrite (recv_some _ _ _ Hq); simpl.
  repeat split; apply firstn_skipn.
Qed.

(** A message with an unknown tag: the first [Read] returns the
    stream-flag error, and its payload stays buffered, so that the next
    [Read] returns it as data. *)
Theorem read_unknown_tag_payload_kept :
  forall s flag data q b1 s1 r1 b2 s2 r2,
    read_open s -> bufptr s = [] -> rcv_queue (kcp s) = (flag :: data) :: q ->
    flag <> PSH -> flag <> SYN -> flag <> FIN -> flag <> HRT -> flag <> RST ->
    data <> [] ->
    tsteps Resolve s (PRead b1) s1 (PDone r1) ->
    tsteps Resolve s1 (PRead b2) s2 (PDone r2) ->
    r1 = RRead [] (Some errStreamFlag) /\ bufptr s1 = data /\
    r2 = RRead (firstn (Nat.min b2 (length data)) data) None.
Proof.
  intros s flag data q b1 s1 r1 b2 s2 r2 Ho Hb Hq H1 H2 H3 H4 H5 Hd T1 T2.
  pose proof (read_loop_unknown Resolve s b1 flag data q Hb Hq H1 H2 H3 H4 H5) as RL.
  apply (proj1 (read_run_done _ _ _ _ _ Ho RL _ _)) in T1.
  destruct T1 as [-> ->].
  assert (Ho1 : read_open (add_BytesReceived (set_bufptr (set_kcp (grow_recvbuf s (length (flag :: data)))
                                                           (snd (Recv (kcp s)))) data) 1))
    by (rewrite grow_recvbuf_max; exact Ho).
  split; [reflexivity|split; [reflexivity|]].
  assert (Hd1 : bufptr (add_BytesReceived (set_bufptr (set_kcp (grow_recvbuf s (length (flag :: data)))
                                                  (snd (Recv (kcp s)))) data) 1) <> [])
    by exact Hd.
  apply (proj1 (read_run_done _ _ _ _ _ Ho1 (read_loop_buffered _ b2 Hd1) _ _)) in T2.
  destruct T2 as [_ ->]. reflexivity.
Qed.

(** Control messages end a [Read] with no bytes: a heartbeat with no
    error, a FIN with io.EOF (closing the receive-FIN signal), an RST with
    io.ErrUnexpectedEOF (resetting the stream, which releases the send
    buffers); none leaves bytes buffered. *)
Theorem read_control_messages :
  forall s blen flag data q s' r,
    read_open s -> bufptr s = [] -> rcv_queue (kcp s) = (flag :: data) :: q ->
    recvFinOnce s = false -> rstOnce s = false ->
    tsteps Resolve s (PRead blen) s' (PDone r) ->
    (flag = HRT -> r = RRead [] None /\ bufptr s' = [] /\ rcv_queue (kcp s') = q /\
                   read_open s') /\
    (flag = FIN -> r = RRead [] (Some EOF) /\ bufptr s' = [] /\ rcv_queue (kcp s') = q /\
                   chRecvFinEvent s' = true) /\
    (flag = RST -> r = RRead [] (Some ErrUnexpectedEOF) /\ bufptr s' = [] /\
                   rcv_queue (kcp s') = q /\
                   chRst s' = true /\ snd_queue (kcp s') = [] /\ snd_buf (kcp s') = []).
Proof.
  intros s blen flag data q s' r Ho Hb Hq Hfo Hro H.
  assert (Hs : skipn (length data) data = []) by apply skipn_all.
  pose proof (recv_some _ _ _ Hq) as ER.
  set (k1 := mkKCP (mss (kcp s)) (snd_wnd (kcp s)) (rmt_wnd (kcp s))
                   (snd_queue (kcp s)) (snd_buf (kcp s)) q) in ER.
  assert (Pre : forall s2 n e,
      cmdRead Resolve (set_kcp (grow_recvbuf s (length (flag :: data))) k1) flag data blen
        = (s2, n, e) ->
      read_loop Resolve s blen =
      Some (ODone (add_BytesReceived (set_bufptr s2 (skipn (S n) (flag :: data))) (S n))
                  (if Byte.eqb flag PSH then firstn n data else [], e))).
  { intros s2 n e E. unfold read_loop; rewrite Hb, (PeekSize_head _ _ _ Hq), Nat2Z.id.
    simpl Z.ltb. cbv zeta. rewrite grow_recvbuf_kcp, ER. rewrite E. reflexivity. }
  split; [|split]; intros ->.
  - specialize (Pre _ _ _ eq_refl).
    apply (proj1 (read_run_done _ _ _ _ _ Ho Pre _ _)) in H. destruct H as [-> ->].
    rewrite grow_recvbuf_max. simpl. rewrite Hs. repeat split; apply Ho.
  - specialize (Pre _ _ _ eq_refl).
    apply (proj1 (read_run_done _ _ _ _ _ Ho Pre _ _)) in H. destruct H as [-> ->].
    rewrite grow_recvbuf_max. simpl. unfold recvFin. simpl. rewrite Hs, Hfo. repeat split.
  - specialize (Pre _ _ _ eq_refl).
    apply (proj1 (read_run_done _ _ _ _ _ Ho Pre _ _)) in H. destruct H as [-> ->].
    rewrite grow_recvbuf_max. simpl. unfold recvRst, reset. simpl. rewrite Hs, Hro. repeat split.
Qed.


(** ** Signals stay closed; one remote per tunnel *)





Lemma ctl_le_refl s : ctl_le s s.
Proof. unfold ctl_le, signals_le; intuition. Qed.

Lemma ctl_le_trans s1 s2 s3 : ctl_le s1 s2 -> ctl_le s2 s3 -> ctl_le s1 s3.
Proof. unfold ctl_le, signals_le; intuition. Qed.

Lemma same_ctl_le s s' : same_ctl s s' -> ctl_le s s'.
Proof.
  unfold same_ctl, ctl_le, signals_le, links_ok.
  intros (-> & -> & -> & -> & -> & ->); intuition.
Qed.

Lemma same_ctl_trans s1 s2 s3 : same_ctl s1 s2 -> same_ctl s2 s3 -> same_ctl s1 s3.
Proof. unfold same_ctl; intuition congruence. Qed.

Lemma same_ctl_refl s : same_ctl s s.
Proof. repeat split. Qed.

Lemma parallelTun_same_ctl s x : same_ctl s (snd (parallelTun s x)).
Proof.
  unfold parallelTun.
  destruct (N.leb _ _); [|destruct (IsZero _); [|destruct (After _ _)]]; repeat split.
Qed.

Lemma output_same_ctl s buf x pool s' : output s buf x pool = Some s' -> same_ctl s s'.
Proof.
  unfold output. intros H.
  pose proof (parallelTun_same_ctl s x) as G.
  destruct (parallelTun s x) as [k s1]; simpl in G.
  destruct (output_copies _ _ _ _ _ _); [|discriminate].
  injection H as <-. exact G.
Qed.

Lemma kcp_output_same_ctl s buf size x pool s' :
  kcp_output s buf size x pool = Some s' -> same_ctl s s'.
Proof.
  unfold kcp_output; destruct (Nat.leb _ _); intros H.
  - eapply output_same_ctl; eauto.
  - injection H as <-; apply same_ctl_refl.
Qed.

Lemma output_all_same_ctl segs s s' : output_all s segs = Some s' -> same_ctl s s'.
Proof.
  revert s; induction segs as [|[b x] t IH]; simpl; intros s H.
  - injection H as <-; apply same_ctl_refl.
  - destruct (kcp_output _ _ _ _ _) as [s1|] eqn:E; [|discriminate].
    eapply same_ctl_trans; [eapply kcp_output_same_ctl; eauto | eauto].
Qed.

Lemma flush_same_ctl s b s' : flush s b = Some s' -> same_ctl s s'.
Proof.
  unfold flush; intros H.
  assert (G : forall s1, (if b then let (k', segs) := kcp_flush (kcp s) in
                          output_all (set_kcp s k') segs else Some s) = Some s1 ->
                         same_ctl s s1).
  { intros s1; destruct b.
    - destruct (kcp_flush (kcp s)) as [k' segs]; intros E.
      eapply same_ctl_trans; [|eapply output_all_same_ctl; eauto]; repeat split.
    - intros E; injection E as <-; apply same_ctl_refl. }
  destruct (if b then _ else _) as [s1|] eqn:E1; [|discriminate].
  specialize (G s1 eq_refl).
  destruct (msgss s1); [destruct (_ && _)|].
  - injection H as <-. exact G.
  - injection H as <-. exact G.
  - destruct (handoff _ _ _ _); [|discriminate]. injection H as <-.
    destruct (_ && _); exact G.
Qed.

Lemma write_loop_same_ctl s flag b (o : outcome (nat * option err)) :
  write_loop s flag b = Some o ->
  match o with ODone s' _ | OBlock s' _ => same_ctl s s' end.
Proof.
  unfold write_loop; intros H.
  destruct (_ && _).
  - destruct (write_segments _ _ _ _ _) as [[k' tail]|]; [|discriminate].
    simpl in H.
    match type of H with
    | match ?x with Some _ => _ | None => _ end = _ => destruct x as [s2|] eqn:E
    end; [|discriminate].
    injection H as <-.
    assert (same_ctl s s2).
    { destruct (_ || _).
      - eapply same_ctl_trans; [|eapply flush_same_ctl; eauto]; repeat split.
      - injection E as <-; repeat split. }
    eapply same_ctl_trans; [eassumption|repeat split].
  - injection H as <-. unfold wait_or_timeout.
    destruct (IsZero _); [|destruct (After _ _)]; repeat split.
Qed.

Lemma resolve_all_length rs addrs :
  resolve_all Resolve rs = inl addrs -> length addrs = length rs.
Proof.
  revert addrs; induction rs as [|r t IH]; simpl; intros addrs H.
  - injection H as <-; reflexivity.
  - destruct (Resolve r); [|discriminate].
    destruct (resolve_all Resolve t) as [l|]; [|discriminate].
    injection H as <-; simpl; f_equal; apply IH; reflexivity.
Qed.

Lemma recvSyn_ctl_le s data s' n e : recvSyn Resolve s data = (s', n, e) -> ctl_le s s'.
Proof.
  unfold recvSyn; intros H.
  destruct (recvSynOnce s).
  - injection H as <- _ _; apply ctl_le_refl.
  - destruct (strings_Split data x20) as [|r rs] eqn:Es.
    + injection H as <- _ _; apply same_ctl_le; repeat split.
    + destruct (_ || _) eqn:Ec.
      * injection H as <- _ _; apply same_ctl_le; repeat split.
      * destruct (resolve_all Resolve (r :: rs)) as [addrs|] eqn:Er.
        -- injection H as <- _ _.
           split; [unfold signals_le; simpl; auto|].
           intros _. unfold links_ok; simpl.
           apply orb_false_iff in Ec; destruct Ec as [E1 E2].
           apply Nat.eqb_neq in E1. apply negb_false_iff, Nat.eqb_eq in E2.
           apply resolve_all_length in Er. simpl in E1, E2.
           split; [intros E; rewrite E in E1; apply E1; reflexivity|]. rewrite Er. exact E2.
        -- injection H as <- _ _; apply same_ctl_le; repeat split.
Qed.

Lemma reset_ctl_le s : ctl_le s (reset s).
Proof.
  unfold reset; destruct (rstOnce s); [apply ctl_le_refl|].
  split; [unfold signals_le; simpl; auto|unfold links_ok; simpl; auto].
Qed.

Lemma cmdRead_ctl_le s flag data blen s' n e :
  cmdRead Resolve s flag data blen = (s', n, e) -> ctl_le s s'.
Proof.
  unfold cmdRead; intros H.
  repeat match type of H with context [if Byte.eqb ?a ?b then _ else _] =>
    destruct (Byte.eqb a b) end.
  all: try (injection H as <- _ _; apply ctl_le_refl).
  - eapply recvSyn_ctl_le; eauto.
  - unfold recvFin in H; injection H as <- _ _.
    destruct (recvFinOnce s); [apply ctl_le_refl|].
    split; [unfold signals_le; simpl; auto|unfold links_ok; simpl; auto].
  - unfold recvRst in H; injection H as <- _ _; apply reset_ctl_le.
Qed.

Lemma read_loop_ctl_le s blen (o : outcome (list byte * option err)) :
  read_loop Resolve s blen = Some o ->
  match o with ODone s' _ | OBlock s' _ => ctl_le s s' end.
Proof.
  unfold read_loop; intros H.
  destruct (bufptr s) as [|x bp].
  - destruct (Z.ltb 0 _).
    + cbv zeta in H; rewrite grow_recvbuf_max in H; cbn [kcp set_recvcap] in H.
      destruct (Recv (kcp s)) as [[|flag data] k']; [discriminate|].
      destruct (cmdRead _ _ _ _ _) as [[s2 n] e] eqn:E.
      injection H as <-.
      apply cmdRead_ctl_le in E.
      eapply ctl_le_trans; [|eapply ctl_le_trans; [exact E|]];
        apply same_ctl_le; repeat split.
    + injection H as <-. unfold wait_or_timeout.
      destruct (IsZero _); [|destruct (After _ _)]; apply ctl_le_refl.
  - injection H as <-. apply same_ctl_le; repeat split.
Qed.

Lemma accept_body_ctl_le s s' e : accept_body Resolve s = Some (s', e) -> ctl_le s s'.
Proof.
  unfold accept_body; intros H.
  destruct (Z.leb _ 0).
  - injection H as <- _; apply ctl_le_refl.
  - destruct (Nat.ltb _ _); [discriminate|].
    destruct (Recv (kcp s)) as [[|flag data] k'].
    + injection H as <- _; apply same_ctl_le; repeat split.
    + destruct (Byte.eqb flag SYN).
      * destruct (recvSyn _ _ _) as [[s2 n] e2] eqn:E; injection H as <- _.
        eapply ctl_le_trans; [|eapply recvSyn_ctl_le; eauto].
        apply same_ctl_le; repeat split.
      * injection H as <- _; apply same_ctl_le; repeat split.
Qed.

Lemma tstep_ctl_le s p s' p' : tstep Resolve s p s' p' -> ctl_le s s'.
Proof.
  intros H; inversion H; subst; try apply ctl_le_refl.
  all: try (apply same_ctl_le; repeat split; fail).
  all: first
    [ solve [apply same_ctl_le; exact (write_loop_same_ctl _ _ _ _ H0)]
    | solve [apply same_ctl_le; eapply flush_same_ctl; eauto]
    | solve [exact (read_loop_ctl_le _ _ _ H0)]
    | solve [eapply accept_body_ctl_le; eauto]
    | solve [split; [unfold signals_le; simpl; auto|unfold links_ok; simpl; auto]] ].
Qed.

Lemma sys_steps_ctl_le c c' : sys_steps Resolve c c' -> ctl_le (fst c) (fst c').
Proof.
  induction 1 as [c|c c1 c' H _ IH]; [apply ctl_le_refl|].
  eapply ctl_le_trans; [|exact IH].
  destruct H; simpl.
  - eapply tstep_ctl_le; eauto.
  - apply same_ctl_le; repeat split.
Qed.

(** Once the stream is closed, reset or half-closed for sending, whatever
    runs in between, every later [Write] returns at its first [select],
    with no bytes and the closed-pipe or unexpected-EOF error. *)
Theorem write_fails_after_signal :
  forall s ps s' ps' flag b k s2 p2,
    chClose s = true \/ chRst s = true \/ chSendFinEvent s = true ->
    sys_steps Resolve (s, ps) (s', ps') ->
    tstep Resolve s' (PWrite flag b k) s2 p2 ->
    s2 = s' /\ exists e, p2 = PWriteRet k 0 (Some e) /\
                         (e = ErrClosedPipe \/ e = ErrUnexpectedEOF).
Proof.
  intros s ps s' ps' flag b k s2 p2 Hs Hss H.
  apply sys_steps_ctl_le in Hss; simpl in Hss.
  destruct Hss as [(Hc & Hr & Hf & _) _].
  assert (Hs' : chClose s' = true \/ chRst s' = true \/ chSendFinEvent s' = true)
    by intuition.
  inversion H; subst.
  - split; [reflexivity|]. eexists; split; [reflexivity|].
    match goal with Hx : go_select _ _ _ |- _ => apply go_select_inv in Hx end.
    unfold write_entry_cases in *.
    destruct H6 as [[E|[E|[E|[]]]]|[_ E]]; try injection E as _ <-; auto; discriminate.
  - exfalso.
    match goal with Hx : go_select _ _ _ |- _ => apply go_select_inv in Hx end.
    destruct H6 as [[E|[E|[E|[]]]]|[E _]]; try discriminate.
    unfold write_entry_cases in E; simpl in E.
    destruct Hs' as [X|[X|X]]; rewrite X in E; simpl in E;
      repeat rewrite andb_false_r in E; discriminate.
Qed.

(** The same for [Read] and [Accept] once the stream is closed, reset or
    half-closed for receiving: no bytes, and the closed-pipe,
    unexpected-EOF or EOF error. *)
Theorem read_fails_after_signal :
  forall s ps s' ps',
    chClose s = true \/ chRst s = true \/ chRecvFinEvent s = true ->
    sys_steps Resolve (s, ps) (s', ps') ->
    (forall blen s2 p2, tstep Resolve s' (PRead blen) s2 p2 ->
       s2 = s' /\ exists e, p2 = PDone (RRead [] (Some e)) /\
                            (e = ErrClosedPipe \/ e = ErrUnexpectedEOF \/ e = EOF)) /\
    (forall s2 p2, tstep Resolve s' PAccept s2 p2 ->
       s2 = s' /\ exists e, p2 = PDone (RErr (Some e)) /\
                            (e = ErrClosedPipe \/ e = ErrUnexpectedEOF \/ e = EOF)).
Proof.
  intros s ps s' ps' Hs Hss.
  apply sys_steps_ctl_le in Hss; simpl in Hss.
  destruct Hss as [(Hc & Hr & _ & Hf) _].
  assert (Hs' : chClose s' = true \/ chRst s' = true \/ chRecvFinEvent s' = true)
    by intuition.
  assert (Nd : ~ go_select (read_entry_cases s') (Some None) None).
  { intros X. apply go_select_inv in X.
    destruct X as [[E|[E|[E|[]]]]|[E _]]; try discriminate.
    unfold read_entry_cases in E; simpl in E.
    destruct Hs' as [X|[X|X]]; rewrite X in E; simpl in E;
      repeat rewrite andb_false_r in E; discriminate. }
  assert (Er : forall e, go_select (read_entry_cases s') (Some None) (Some e) ->
                 e = ErrClosedPipe \/ e = ErrUnexpectedEOF \/ e = EOF).
  { intros e X. apply go_select_inv in X. unfold read_entry_cases in X.
    destruct X as [[E|[E|[E|[]]]]|[_ E]]; try injection E as _ <-; auto; discriminate. }
  split.
  - intros blen s2 p2 H; inversion H; subst.
    + split; [reflexivity|]. eexists; split; [reflexivity|]. apply Er; assumption.
    + contradiction.
  - intros s2 p2 H; inversion H; subst.
    + split; [reflexivity|]. eexists; split; [reflexivity|]. apply Er; assumption.
    + contradiction.
Qed.

(** Every stream keeps at least one tunnel and exactly one remote address
    per tunnel, whatever its threads do and however time passes (a SYN
    replaces both only by lists of equal, non-zero length). *)
Theorem links_invariant :
  forall s ps s' ps',
    links_ok s -> sys_steps Resolve (s, ps) (s', ps') -> links_ok s'.
Proof.
  intros s ps s' ps' Hl H. apply sys_steps_ctl_le in H. apply (proj2 H), Hl.
Qed.

(** ** The dispatcher *)

Lemma set_nth_some {A} i (v : A) l :
  (i < length l)%nat -> exists l', set_nth i v l = Some l' /\ length l' = length l.
Proof.
  revert i; induction l as [|x t IH]; intros [|i] H; simpl in H; try lia.
  - exists (v :: t); auto.
  - destruct (IH i ltac:(lia)) as (t' & E & L).
    exists (x :: t'); simpl; rewrite E; simpl; auto.
Qed.

Lemma nth_error_lt {A} (l : list A) i : (i < length l)%nat -> exists x, nth_error l i = Some x.
Proof.
  intros H. destruct (nth_error l i) eqn:E; [eauto|].
  apply nth_error_None in E; lia.
Qed.

Lemma output_copies_some s buf pool i cnt ms :
  (forall j, length buf <= length (pool j))%nat -> (gouuid_Size <= length buf)%nat ->
  (i + cnt <= length (remotes s))%nat -> (i + cnt <= length ms)%nat ->
  exists ms', output_copies s buf pool i cnt ms = Some ms'.
Proof.
  intros Hp Hb. revert i ms; induction cnt as [|c IH]; intros i ms Hr Hm.
  - eexists; reflexivity.
  - cbn [output_copies].
    replace (Nat.ltb (length (pool i)) (length buf)) with false
      by (symmetry; apply Nat.ltb_ge, Hp).
    replace (Nat.ltb (length (go_copy (firstn (length buf) (pool i)) (uuid s))) gouuid_Size)
      with false
      by (symmetry; apply Nat.ltb_ge; rewrite length_go_copy, length_firstn;
          specialize (Hp i); unfold gouuid_Size in *; lia).
    destruct (nth_error_lt (remotes s) i ltac:(lia)) as [a Ea]; rewrite Ea.
    destruct (nth_error_lt ms i ltac:(lia)) as [qi Eq]; rewrite Eq.
    match goal with |- context [set_nth i ?v ms] =>
      destruct (set_nth_some i v ms ltac:(lia)) as (ms1 & E1 & L1); rewrite E1 end.
    apply IH; lia.
Qed.

Lemma parallelTun_count s x :
  fst (parallelTun s x) = length (tunnels s) \/ fst (parallelTun s x) = 1%nat.
Proof.
  unfold parallelTun.
  destruct (N.leb _ _); [|destruct (IsZero _); [|destruct (After _ _)]]; simpl; auto.
Qed.

(** The output callback never panics on a stream with one remote per
    tunnel, for a segment that fits a buffer of [xmitBuf]. *)
Theorem kcp_output_never_panics :
  forall s buf size xmitMax,
    links_ok s -> (size <= length buf)%nat -> (size <= mtuLimit)%nat ->
    kcp_output s buf size xmitMax xmitBuf_Get <> None.
Proof.
  intros s buf size x [Hne Hl] Hs Hm.
  unfold kcp_output. destruct (Nat.leb_spec (IKCP_OVERHEAD + gouuid_Size) size) as [Hz|];
    [|discriminate].
  unfold output.
  pose proof (parallelTun_keeps s x) as (_ & Er & Em).
  pose proof (parallelTun_same_ctl s x) as (_ & _ & _ & _ & Et & _).
  pose proof (parallelTun_count s x) as Hk.
  destruct (parallelTun s x) as [k s1]; simpl in Er, Em, Et, Hk.
  assert (Lb : length (firstn size buf) = size) by (rewrite length_firstn; lia).
  assert (Hk' : (k <= length (remotes s1))%nat).
  { rewrite Er, <- Hl. destruct Hk as [->| ->]; [lia|].
    destruct (tunnels s); [congruence|simpl; lia]. }
  destruct (output_copies_some s1 (firstn size buf) xmitBuf_Get 0 k
              (msgss s1 ++ repeat [] (k - length (msgss s1)))) as [ms' E].
  - intros j; rewrite Lb; unfold xmitBuf_Get; rewrite repeat_length; exact Hm.
  - rewrite Lb. unfold IKCP_OVERHEAD, gouuid_Size in *; lia.
  - lia.
  - rewrite length_app, repeat_length; lia.
  - rewrite E; discriminate.
Qed.

Lemma output_copies_count s buf pool i cnt ms ms' :
  output_copies s buf pool i cnt ms = Some ms' ->
  forall j, length (nth j ms' []) =
            (length (nth j ms []) + if Nat.leb i j && Nat.ltb j (i + cnt) then 1 else 0)%nat.
Proof.
  revert i ms; induction cnt as [|c IH]; intros i ms H j; cbn [output_copies] in H.
  - injection H as <-. destruct (Nat.leb_spec i j), (Nat.ltb_spec j (i + 0)); simpl; lia.
  - destruct (Nat.ltb _ _); [discriminate|].
    destruct (Nat.ltb _ gouuid_Size); [discriminate|].
    destruct (nth_error (remotes s) i) as [a|]; [|discriminate].
    destruct (nth_error ms i) as [qi|] eqn:Eq; [|discriminate].
    match type of H with context [set_nth i ?v ms] =>
      destruct (set_nth i v ms) as [ms1|] eqn:E1; [|discriminate] end.
    rewrite (IH _ _ H j), (set_nth_nth _ _ _ _ _ _ E1).
    destruct (Nat.eqb_spec j i) as [->|Hji].
    + rewrite (nth_error_nth' _ _ _ _ Eq), length_app.
      replace (S i <=? i)%nat with false by (symmetry; apply Nat.leb_gt; lia).
      rewrite Nat.leb_refl.
      replace (i <? i + S c)%nat with true by (symmetry; apply Nat.ltb_lt; lia).
      simpl; lia.
    + destruct (Nat.leb_spec (S i) j), (Nat.leb_spec i j), (Nat.ltb_spec j (S i + c)),
        (Nat.ltb_spec j (i + S c)); simpl; lia.
Qed.

(** Each call of the output callback queues exactly one copy for each of
    the first [k] tunnels, [k] the count [parallelTun] returns, and none
    for the others; a segment shorter than the overhead queues nothing. *)
Theorem kcp_output_copy_count :
  forall s buf size xmitMax pool s',
    kcp_output s buf size xmitMax pool = Some s' ->
    forall i, length (nth i (msgss s') []) =
      (length (nth i (msgss s) []) +
       if Nat.leb (IKCP_OVERHEAD + gouuid_Size) size && Nat.ltb i (fst (parallelTun s xmitMax))
       then 1 else 0)%nat.
Proof.
  intros s buf size x pool s' H i.
  unfold kcp_output in H. destruct (Nat.leb _ size).
  - unfold output in H.
    pose proof (parallelTun_keeps s x) as (_ & _ & Em).
    destruct (parallelTun s x) as [k s1]; simpl in Em |- *.
    destruct (output_copies _ _ _ _ _ _) as [ms'|] eqn:E; [|discriminate].
    injection H as <-. simpl.
    rewrite (output_copies_count _ _ _ _ _ _ _ E i), nth_app_repeat_nil, Em.
    reflexivity.
  - injection H as <-. simpl; lia.
Qed.

Lemma skipn_cons_nth {A} (l : list A) i :
  (i < length l)%nat -> exists x, nth_error l i = Some x /\ skipn i l = x :: skipn (S i) l.
Proof.
  revert i; induction l as [|y t IH]; intros [|i] H; simpl in H; try lia.
  - exists y; auto.
  - apply IH; lia.
Qed.

Lemma handoff_batches tuns i batches w :
  (i + length batches <= length tuns)%nat ->
  handoff tuns i batches w =
    Some (w ++ filter (fun p => match snd p with [] => false | _ => true end) (combine (skipn i tuns) batches)).
Proof.
  revert i w; induction batches as [|m t IH]; intros i w H.
  - simpl. destruct (skipn i tuns); simpl; rewrite app_nil_r; reflexivity.
  - simpl in H. destruct (skipn_cons_nth tuns i ltac:(lia)) as (x & Ex & Es).
    rewrite Es. simpl. destruct m as [|msg ms].
    + apply IH; lia.
    + rewrite Ex. simpl. rewrite IH by lia. rewrite <- app_assoc. reflexivity.
Qed.

(** [flush]: once the engine has been flushed (or not), every non-empty
    batch of queued datagrams is handed, in order, to the tunnel of its
    index, empty batches are skipped, and no batch is left queued. *)
Theorem flush_hands_off_batches :
  forall s (kcpFlush : bool) s1,
    (if kcpFlush then let (k', segs) := kcp_flush (kcp s) in output_all (set_kcp s k') segs
     else Some s) = Some s1 ->
    (length (msgss s1) <= length (tunnels s1))%nat ->
    exists s', flush s kcpFlush = Some s' /\ msgss s' = [] /\ kcp s' = kcp s1 /\
      wire s' = wire s1 ++ filter (fun p => match snd p with [] => false | _ => true end) (combine (tunnels s1) (msgss s1)).
Proof.
  intros s b s1 E1 Hl.
  unfold flush. rewrite E1.
  pose proof (handoff_batches (tunnels s1) 0 (msgss s1) (wire s1) ltac:(lia)) as Eh.
  destruct (msgss s1) as [|m t] eqn:Em.
  - eexists; split; [reflexivity|].
    destruct (_ && _); simpl; rewrite Em;
      (split; [reflexivity|split; [reflexivity|]]);
      destruct (tunnels s1); simpl; rewrite app_nil_r; reflexivity.
  - destruct (_ && _); cbn [tunnels wire notifyWriteEvent set_chWriteEvent set_msgss];
      rewrite Eh;
      (eexists; split; [reflexivity|]); simpl; auto.
Qed.

(** ** Splitting a write into segments *)

Lemma write_segments_split fuel flag m b k :
  (2 <= m)%nat -> (length b < fuel)%nat ->
  exists chunks k' tail,
    write_segments fuel flag m b k = Some (k', tail) /\
    chunks <> [] /\ concat chunks = b /\ last chunks [] = tail /\
    Forall (fun c => length c < m)%nat chunks /\
    Forall (fun c => length c = m - 1)%nat (removelast chunks) /\
    snd_queue k' = snd_queue k ++ map (cons flag) chunks /\
    mss k' = mss k /\ snd_wnd k' = snd_wnd k /\ rmt_wnd k' = rmt_wnd k /\
    snd_buf k' = snd_buf k /\ rcv_queue k' = rcv_queue k.
Proof.
  intros Hm. revert b k; induction fuel as [|f IH]; intros b k Hf; [lia|].
  cbn [write_segments].
  destruct (Nat.ltb_spec (length b) m) as [Hb|Hb].
  - exists [b], (Send k (flag :: b)), b.
    split; [reflexivity|]. split; [discriminate|].
    split; [apply app_nil_r|]. split; [reflexivity|].
    split; [repeat constructor; assumption|]. split; [constructor|].
    repeat split.
  - destruct (IH (skipn (m - 1) b) (Send k (flag :: firstn (m - 1) b)))
      as (chunks & k' & tail & E & Hne & Hc & Hl & Hlt & Heq & Hq & H1 & H2 & H3 & H4 & H5);
      [rewrite length_skipn; lia|].
    exists (firstn (m - 1) b :: chunks), k', tail.
    split; [exact E|]. split; [discriminate|].
    split; [simpl; rewrite Hc; apply firstn_skipn|].
    split; [destruct chunks; [congruence|exact Hl]|].
    split; [constructor; [rewrite length_firstn; lia|exact Hlt]|].
    split; [destruct chunks; [congruence|constructor; [rewrite length_firstn; lia|exact Heq]]|].
    rewrite Hq, H1, H2, H3, H4, H5. simpl. rewrite <- app_assoc. repeat split.
Qed.

(** The inner loop of [WriteBuffer] (for an MSS of at least 2) queues
    segments [flag :: chunk] whose chunks make up [b], each of [mss - 1]
    bytes except the last, shorter than [mss]; the [b] it ends with is that
    last chunk; the engine is otherwise unchanged. *)
Theorem write_segments_chunks :
  forall flag b k,
    (2 <= mss k)%nat ->
    exists chunks k' tail,
      write_segments (S (length b)) flag (mss k) b k = Some (k', tail) /\
      chunks <> [] /\ concat chunks = b /\ last chunks [] = tail /\
      Forall (fun c => length c < mss k)%nat chunks /\
      Forall (fun c => length c = mss k - 1)%nat (removelast chunks) /\
      snd_queue k' = snd_queue k ++ map (cons flag) chunks /\
      mss k' = mss k /\ snd_wnd k' = snd_wnd k /\ rmt_wnd k' = rmt_wnd k /\
      snd_buf k' = snd_buf k /\ rcv_queue k' = rcv_queue k.
Proof.
  intros flag b k Hm.
  exact (write_segments_split (S (length b)) flag (mss k) b k Hm ltac:(lia)).
Qed.

(** ** Deadlines *)



Lemma write_entry_open s e :
  write_open s -> go_select (write_entry_cases s) (Some None) e -> e = None.
Proof.
  intros (Hc & Hr & Hf) H; apply go_select_inv in H; unfold write_entry_cases in H.
  rewrite Hc, Hr, Hf in H; simpl in H.
  destruct H as [[E|[E|[E|[]]]]|[_ E]]; congruence.
Qed.

(** A [Write] whose first loop iteration returns: its only outcome. *)
Lemma write_run_done s flag b s1 n e :
  write_open s -> write_loop s flag b = Some (ODone s1 (n, e)) ->
  forall s' r, tsteps Resolve s (PWrite flag b KWrite) s' (PDone r) <-> s' = s1 /\ r = RInt n e.
Proof.
  intros Ho WL s' r; split.
  - intros H.
    inversion H as [|? ? s2 p2 ? ? S1 T1]; subst.
    inversion S1; subst.
    + match goal with Hx : go_select _ _ (Some _) |- _ =>
        apply (write_entry_open _ _ Ho) in Hx; discriminate end.
    + inversion T1 as [|? ? s3 p3 ? ? S2 T2]; subst.
      inversion S2; subst;
        match goal with Hx : write_loop _ _ _ = _ |- _ => rewrite WL in Hx; rename Hx into E end;
        try discriminate.
      injection E as <- <- <-.
      inversion T2 as [|? ? s4 p4 ? ? S3 T3]; subst.
      inversion S3; subst.
      apply tsteps_done in T3; destruct T3 as [-> E]; injection E as <-; auto.
  - intros [-> ->].
    eapply tsteps_step; [apply t_write_entry; apply select_default;
                         destruct Ho as (Hc & Hr & Hf); unfold write_entry_cases;
                         rewrite Hc, Hr, Hf; reflexivity|].
    eapply tsteps_step; [apply t_write_done; exact WL|].
    eapply tsteps_step; [apply t_ret_write|apply tsteps_refl].
Qed.

Lemma write_loop_window_full s flag b :
  window_full (kcp s) ->
  write_loop s flag b = Some (wait_or_timeout s (wd s) (0%nat, Some errTimeout)).
Proof.
  intros Hw. unfold write_loop.
  replace (_ && _) with false; [reflexivity|].
  destruct Hw as [Hw|Hw]; symmetry; apply andb_false_iff;
    [left|right]; apply Nat.ltb_ge; exact Hw.
Qed.

Lemma wait_or_timeout_passed {R} s d (x : R) :
  d <> 0 -> d < now s -> wait_or_timeout s d x = ODone s x.
Proof.
  intros H0 Hl. unfold wait_or_timeout, IsZero, After.
  rewrite (proj2 (Z.eqb_neq d 0) H0), (proj2 (Z.ltb_lt d (now s)) Hl). reflexivity.
Qed.

(** A [Write] on a full send window whose write deadline has passed
    returns at once with the timeout error, nothing written, nothing
    changed. *)
Theorem write_deadline_passed :
  forall s flag b s' r,
    write_open s -> window_full (kcp s) -> wd s <> 0 -> wd s < now s ->
    (tsteps Resolve s (PWrite flag b KWrite) s' (PDone r) <->
     s' = s /\ r = RInt 0 (Some errTimeout)).
Proof.
  intros s flag b s' r Ho Hw H0 Hl.
  apply write_run_done; [exact Ho|].
  rewrite write_loop_window_full by exact Hw.
  rewrite wait_or_timeout_passed by assumption. reflexivity.
Qed.

Lemma writer_blocked_step s flag b p s1 p1 :
  write_open s -> window_full (kcp s) -> wd s = 0 ->
  (p = PWrite flag b KWrite \/ p = PWriteLoop flag b KWrite \/ p = PWriteWait flag b None KWrite) ->
  tstep Resolve s p s1 p1 ->
  write_open s1 /\ kcp s1 = kcp s /\ wd s1 = 0 /\
  (p1 = PWrite flag b KWrite \/ p1 = PWriteLoop flag b KWrite \/ p1 = PWriteWait flag b None KWrite).
Proof.
  intros Ho Hw H0 Hp T.
  assert (WL : write_loop s flag b = Some (OBlock s None)).
  { rewrite write_loop_window_full by exact Hw. rewrite H0. reflexivity. }
  destruct Hp as [->|[->| ->]]; inversion T; subst.
  - match goal with Hx : go_select _ _ (Some _) |- _ =>
      apply (write_entry_open _ _ Ho) in Hx; discriminate end.
  - split; [exact Ho|split; [reflexivity|split; [exact H0|auto]]].
  - match goal with Hx : write_loop _ _ _ = _ |- _ => rewrite WL in Hx; discriminate end.
  - match goal with Hx : write_loop _ _ _ = _ |- _ => rewrite WL in Hx; injection Hx as <- <- end.
    split; [exact Ho|split; [reflexivity|split; [exact H0|auto]]].
  - match goal with Hx : go_select _ _ (WkErr _) |- _ => apply go_select_inv in Hx end.
    destruct Ho as (Hc & Hr & Hf).
    match goal with Hx : _ \/ _ |- _ =>
      unfold write_wait_cases in Hx; rewrite Hc, Hr, Hf in Hx; simpl in Hx;
      destruct Hx as [[E|[E|[E|[E|[E|[]]]]]]|[_ E]]; congruence end.
  - split; [exact Ho|split; [reflexivity|split; [exact H0|auto]]].
Qed.

Lemma writer_blocked_steps s p s' p' :
  tsteps Resolve s p s' p' -> forall flag b,
  write_open s -> window_full (kcp s) -> wd s = 0 ->
  (p = PWrite flag b KWrite \/ p = PWriteLoop flag b KWrite \/ p = PWriteWait flag b None KWrite) ->
  write_open s' /\ kcp s' = kcp s /\ wd s' = 0 /\
  (p' = PWrite flag b KWrite \/ p' = PWriteLoop flag b KWrite \/ p' = PWriteWait flag b None KWrite).
Proof.
  induction 1 as [s p|s p s1 p1 s' p' T _ IH]; intros flag b Ho Hw H0 Hp.
  - split; [exact Ho|split; [reflexivity|split; [exact H0|exact Hp]]].
  - destruct (writer_blocked_step _ _ _ _ _ _ Ho Hw H0 Hp T) as (Ho1 & Hk1 & H01 & Hp1).
    rewrite <- Hk1 in Hw.
    destruct (IH flag b Ho1 Hw H01 Hp1) as (Ho2 & Hk2 & H02 & Hp2).
    split; [exact Ho2|split; [congruence|split; [exact H02|exact Hp2]]].
Qed.

(** A [Write] on a full send window with no write deadline, running on
    its own, never returns: every point it reaches is its entry, its loop
    or a wait with no timer, and the engine is unchanged. *)
Theorem write_no_deadline_blocks :
  forall s flag b s' p',
    write_open s -> window_full (kcp s) -> wd s = 0 ->
    tsteps Resolve s (PWrite flag b KWrite) s' p' ->
    (p' = PWrite flag b KWrite \/ p' = PWriteLoop flag b KWrite \/
     p' = PWriteWait flag b None KWrite) /\
    kcp s' = kcp s /\ (forall r, p' <> PDone r).
Proof.
  intros s flag b s' p' Ho Hw H0 H.
  destruct (writer_blocked_steps _ _ _ _ H flag b Ho Hw H0 (or_introl eq_refl))
    as (_ & Hk & _ & Hp).
  split; [exact Hp|split; [exact Hk|]].
  intros r ->; destruct Hp as [E|[E|E]]; discriminate.
Qed.

Lemma read_loop_empty s blen :
  bufptr s = [] -> PeekSize (kcp s) <= 0 ->
  read_loop Resolve s blen = Some (wait_or_timeout s (rd s) ([], Some errTimeout)).
Proof.
  intros Hb Hp. unfold read_loop. rewrite Hb.
  replace (Z.ltb 0 (PeekSize (kcp s))) with false by (symmetry; apply Z.ltb_ge; exact Hp).
  reflexivity.
Qed.

(** A [Read] with nothing buffered or queued whose read deadline has
    passed returns at once with the timeout error and no data, nothing
    changed. *)
Theorem read_deadline_passed :
  forall s blen s' r,
    read_open s -> bufptr s = [] -> PeekSize (kcp s) <= 0 -> rd s <> 0 -> rd s < now s ->
    (tsteps Resolve s (PRead blen) s' (PDone r) <->
     s' = s /\ r = RRead [] (Some errTimeout)).
Proof.
  intros s blen s' r Ho Hb Hp H0 Hl.
  apply read_run_done; [exact Ho|].
  rewrite read_loop_empty by assumption.
  rewrite wait_or_timeout_passed by assumption. reflexivity.
Qed.

Lemma reader_wait_deadline_passed s0 blen timer :
  read_open s0 -> bufptr s0 = [] -> PeekSize (kcp s0) <= 0 -> rd s0 <> 0 -> rd s0 < now s0 ->
  (forall s' r, tsteps Resolve s0 (PReadWait blen timer) s' (PDone r) ->
                r = RRead [] (Some errTimeout)) /\
  (chReadEvent s0 = true ->
   tsteps Resolve s0 (PReadWait blen timer) (set_chReadEvent s0 false)
          (PDone (RRead [] (Some errTimeout)))).
Proof.
  intros Ho Hb Hp H0 Hl.
  assert (RL : read_loop Resolve (set_chReadEvent s0 false) blen = Some (ODone (set_chReadEvent s0 false) ([], Some errTimeout))).
  { rewrite read_loop_empty by assumption.
    rewrite wait_or_timeout_passed by assumption. reflexivity. }
  split.
  - intros s' r H.
    inversion H as [|? ? s2 p2 ? ? S1 T1]; subst.
    inversion S1; subst.
    + match goal with Hx : go_select _ _ (WkErr _) |- _ => apply go_select_inv in Hx;
        unfold read_wait_cases in Hx; destruct Ho as (Hc & Hr & Hf);
        rewrite Hc, Hr, Hf in Hx; simpl in Hx;
        destruct Hx as [[E|[E|[E|[E|[E|[]]]]]]|[_ E]]; try discriminate end.
      injection E as _ <-.
      apply tsteps_done in T1; destruct T1 as [_ E]; injection E as <-; reflexivity.
    + inversion T1 as [|? ? s3 p3 ? ? S2 T2]; subst.
      inversion S2; subst;
        match goal with Hx : read_loop _ _ _ = _ |- _ => rewrite RL in Hx; rename Hx into E end;
        try discriminate.
      try (injection E; intros; subst).
      apply tsteps_done in T2; destruct T2 as [_ E2]; injection E2 as <-; reflexivity.
  - intros He.
    eapply tsteps_step; [apply t_read_wake; apply select_case;
                         unfold read_wait_cases; rewrite He; simpl; auto|].
    eapply tsteps_step; [apply t_read_done; exact RL|apply tsteps_refl].
Qed.

(** [SetReadDeadline] (and [SetDeadline]) with a time already past wakes a
    [Read] blocked on an empty stream: it returns the timeout error, and
    it can always get there. *)
Theorem set_read_deadline_wakes_reader :
  forall s t blen timer,
    read_open s -> bufptr s = [] -> PeekSize (kcp s) <= 0 -> t <> 0 -> t < now s ->
    forall s0, s0 = SetReadDeadline s t \/ s0 = SetDeadline s t ->
    (forall s' r, tsteps Resolve s0 (PReadWait blen timer) s' (PDone r) ->
                  r = RRead [] (Some errTimeout)) /\
    exists s', tsteps Resolve s0 (PReadWait blen timer) s' (PDone (RRead [] (Some errTimeout))).
Proof.
  intros s t blen timer (Hc & Hr & Hf) Hb Hp H0 Hl s0 Hs0.
  assert (Open : read_open s0 /\ bufptr s0 = [] /\ kcp s0 = kcp s /\ rd s0 = t /\
                 now s0 = now s /\ chReadEvent s0 = true)
    by (destruct Hs0 as [->| ->]; repeat split; assumption).
  destruct Open as (Ho & Hb0 & Hk & Hrd & Hn & He).
  destruct (reader_wait_deadline_passed s0 blen timer Ho Hb0) as [A B];
    [rewrite Hk; exact Hp|congruence|congruence|].
  split; [exact A|]. eexists; apply B; exact He.
Qed.

Lemma writer_wait_deadline_passed s0 flag b timer :
  write_open s0 -> window_full (kcp s0) -> wd s0 <> 0 -> wd s0 < now s0 ->
  (forall s' r, tsteps Resolve s0 (PWriteWait flag b timer KWrite) s' (PDone r) ->
                r = RInt 0 (Some errTimeout)) /\
  (chWriteEvent s0 = true ->
   tsteps Resolve s0 (PWriteWait flag b timer KWrite) (set_chWriteEvent s0 false)
          (PDone (RInt 0 (Some errTimeout)))).
Proof.
  intros Ho Hw H0 Hl.
  assert (WL : write_loop (set_chWriteEvent s0 false) flag b = Some (ODone (set_chWriteEvent s0 false) (0%nat, Some errTimeout))).
  { rewrite write_loop_window_full by exact Hw.
    rewrite wait_or_timeout_passed by assumption. reflexivity. }
  split.
  - intros s' r H.
    inversion H as [|? ? s2 p2 ? ? S1 T1]; subst.
    inversion S1; subst.
    + match goal with Hx : go_select _ _ (WkErr _) |- _ => apply go_select_inv in Hx;
        unfold write_wait_cases in Hx; destruct Ho as (Hc & Hr & Hf);
        rewrite Hc, Hr, Hf in Hx; simpl in Hx;
        destruct Hx as [[E|[E|[E|[E|[E|[]]]]]]|[_ E]]; try discriminate end.
      injection E as _ <-.
      inversion T1 as [|? ? s3 p3 ? ? S2 T2]; subst. inversion S2; subst.
      apply tsteps_done in T2; destruct T2 as [_ E]; injection E as <-; reflexivity.
    + inversion T1 as [|? ? s3 p3 ? ? S2 T2]; subst.
      inversion S2; subst;
        match goal with Hx : write_loop _ _ _ = _ |- _ => rewrite WL in Hx; rename Hx into E end;
        try discriminate.
      try (injection E; intros; subst).
      inversion T2 as [|? ? s4 p4 ? ? S3 T3]; subst. inversion S3; subst.
      apply tsteps_done in T3; destruct T3 as [_ E3]; injection E3 as <-; reflexivity.
  - intros He.
    eapply tsteps_step; [apply t_write_wake; apply select_case;
                         unfold write_wait_cases; rewrite He; simpl; auto|].
    eapply tsteps_step; [apply t_write_done; exact WL|].
    eapply tsteps_step; [apply t_ret_write|apply tsteps_refl].
Qed.

(** [SetWriteDeadline] (and [SetDeadline]) with a time already past wakes
    a [Write] blocked on a full send window: it returns the timeout error
    with nothing written, and it can always get there. *)
Theorem set_write_deadline_wakes_writer :
  forall s t flag b timer,
    write_open s -> window_full (kcp s) -> t <> 0 -> t < now s ->
    forall s0, s0 = SetWriteDeadline s t \/ s0 = SetDeadline s t ->
    (forall s' r, tsteps Resolve s0 (PWriteWait flag b timer KWrite) s' (PDone r) ->
                  r = RInt 0 (Some errTimeout)) /\
    exists s', tsteps Resolve s0 (PWriteWait flag b timer KWrite) s'
                      (PDone (RInt 0 (Some errTimeout))).
Proof.
  intros s t flag b timer (Hc & Hr & Hf) Hw H0 Hl s0 Hs0.
  assert (Open : write_open s0 /\ kcp s0 = kcp s /\ wd s0 = t /\
                 now s0 = now s /\ chWriteEvent s0 = true)
    by (destruct Hs0 as [->| ->]; repeat split; assumption).
  destruct Open as (Ho & Hk & Hwd & Hn & He).
  destruct (writer_wait_deadline_passed s0 flag b timer Ho) as [A B];
    [rewrite Hk; exact Hw|congruence|congruence|].
  split; [exact A|]. eexists; apply B; exact He.
Qed.

(** ** Dial and Accept *)

Lemma split_aux_app sep cur e l :
  ~ In sep e -> split_aux sep cur (e ++ l) = split_aux sep (rev e ++ cur) l.
Proof.
  revert cur; induction e as [|a e IH]; intros cur Hn; [reflexivity|].
  simpl. rewrite byte_neq_eqb by (intros ->; apply Hn; left; reflexivity).
  rewrite IH by (intros H; apply Hn; right; exact H).
  rewrite <- app_assoc. reflexivity.
Qed.

(** [strings.Split] undoes [strings.Join] on spaces, when no endpoint
    holds a space. *)
Lemma split_join l :
  l <> [] -> Forall (fun e => ~ In x20 e) l -> strings_Split (strings_Join l x20) x20 = l.
Proof.
  unfold strings_Split.
  induction l as [|e t IH]; intros Hne Hf; [congruence|].
  inversion Hf as [|? ? He Ht]; subst.
  destruct t as [|e2 t].
  - simpl strings_Join. rewrite <- (app_nil_r e) at 1.
    rewrite split_aux_app by exact He. simpl.
    rewrite app_nil_r, rev_involutive. reflexivity.
  - change (strings_Join (e :: e2 :: t) x20) with (e ++ x20 :: strings_Join (e2 :: t) x20).
    rewrite split_aux_app by exact He. cbn [split_aux].
    rewrite (Byte.byte_dec_lb (x := x20) (y := x20) eq_refl).
    rewrite app_nil_r, rev_involutive, IH by (discriminate || exact Ht). reflexivity.
Qed.

(** An [Accept] that gets past its first [select]: its only outcome. *)
Lemma accept_run s s1 e :
  read_open s -> accept_body Resolve s = Some (s1, e) ->
  forall s' r, tsteps Resolve s PAccept s' (PDone r) <-> s' = s1 /\ r = RErr e.
Proof.
  intros Ho AB s' r; split.
  - intros H.
    inversion H as [|? ? s2 p2 ? ? S1 T1]; subst.
    inversion S1; subst.
    + match goal with Hx : go_select _ _ (Some _) |- _ =>
        apply (read_entry_open _ _ Ho) in Hx; discriminate end.
    + match goal with Hx : accept_body _ _ = _ |- _ => rewrite AB in Hx; injection Hx as <- <- end.
      apply tsteps_done in T1; destruct T1 as [-> E]; injection E as <-; auto.
  - intros [-> ->].
    eapply tsteps_step; [eapply t_accept; [|exact AB]|apply tsteps_refl].
    apply select_default. destruct Ho as (Hc & Hr & Hf); unfold read_entry_cases;
      rewrite Hc, Hr, Hf; reflexivity.
Qed.


(** The SYN a [Dial] sends carries its endpoints joined by spaces; an
    [Accept] that takes it, when it fits the capacity of [recvbuf],
    installs the tunnels the selector picks for exactly those endpoints
    and their resolved addresses, and returns nil. *)
Theorem dial_syn_accepted :
  forall s locals addrs q s' r,
    read_open s -> recvSynOnce s = false ->
    locals <> [] -> Forall (fun e => ~ In x20 e) locals ->
    rcv_queue (kcp s) = (SYN :: strings_Join locals x20) :: q ->
    (length (SYN :: strings_Join locals x20) <= recvcap s)%nat ->
    length (sel s locals) = length locals -> resolve_all Resolve locals = inl addrs ->
    tsteps Resolve s PAccept s' (PDone r) ->
    r = RErr None /\ tunnels s' = sel s locals /\ remotes s' = addrs /\
    recvSynOnce s' = true /\ rcv_queue (kcp s') = q /\ links_ok s'.
Proof.
  intros s locals addrs q s' r Ho Hs Hne Hf Hq Hc Hl Ha H.
  pose proof (recv_some _ _ _ Hq) as ER.
  set (k1 := mkKCP _ _ _ _ _ q) in ER.
  assert (AB : accept_body Resolve s =
               Some (set_remotes (set_tunnels (set_recvSynOnce (set_kcp s k1) true) (sel s locals))
                            addrs, None)).
  { unfold accept_body; rewrite (PeekSize_head _ _ _ Hq), Nat2Z.id.
    rewrite (proj2 (Nat.ltb_ge _ _) Hc). simpl Z.leb. cbv iota.
    rewrite ER. cbv zeta. simpl Byte.eqb. cbv iota.
    unfold recvSyn. simpl recvSynOnce. rewrite Hs. cbv iota zeta.
    rewrite (split_join locals Hne Hf).
    destruct locals as [|l ls]; [congruence|].
    simpl sel. rewrite Hl, Nat.eqb_refl. simpl length.
    simpl (Nat.eqb (S _) 0). simpl orb. rewrite Ha. reflexivity. }
  apply (proj1 (accept_run _ _ _ Ho AB _ _)) in H. destruct H as [-> ->].
  assert (La : length addrs = length locals) by (apply resolve_all_length; exact Ha).
  repeat split; simpl; try reflexivity.
  - destruct (sel s locals); [destruct locals; simpl in Hl; congruence|discriminate].
  - congruence.
Qed.


(** ** The constructor *)

Lemma resolve_all_err_addr rs e : resolve_all Resolve rs = inr e -> exists m, e = ErrAddr m.
Proof.
  induction rs as [|r t IH]; simpl; [discriminate|].
  destruct (Resolve r) as [a|m].
  - destruct (resolve_all Resolve t); [discriminate|]. intros H; injection H as <-; auto.
  - intros H; injection H as <-; eauto.
Qed.

(** [NewUDPStream] fails with the tunnel-pick error exactly when the
    selector returns no tunnel or not one per endpoint, otherwise with the
    first resolution error, if any; a stream it returns has one resolved
    remote per tunnel, nothing buffered or queued, all its signals open,
    and the established-connection counter one higher. *)
Theorem NewUDPStream_outcome :
  forall u acc rs pick k t sn,
    (NewUDPStream Resolve u acc rs pick k t sn = inr errTunnelPick <->
     (length (pick rs) = 0 \/ length (pick rs) <> length rs)%nat) /\
    (forall e, NewUDPStream Resolve u acc rs pick k t sn = inr e ->
       e = errTunnelPick \/ resolve_all Resolve rs = inr e) /\
    (forall s, NewUDPStream Resolve u acc rs pick k t sn = inl s ->
       links_ok s /\ tunnels s = pick rs /\ resolve_all Resolve rs = inl (remotes s) /\
       read_open s /\ write_open s /\ bufptr s = [] /\ msgss s = [] /\ kcp s = k /\
       CurrEstab (snmp s) = u64_add (CurrEstab sn) 1).
Proof.
  intros u acc rs pick k t sn. unfold NewUDPStream.
  destruct (Nat.eqb_spec (length (pick rs)) 0) as [H0|H0];
    [|destruct (Nat.eqb_spec (length (pick rs)) (length rs)) as [Hl|Hl]]; simpl.
  - split; [split; auto|split; [intros e E; injection E as <-; auto|discriminate]].
  - destruct (resolve_all Resolve rs) as [addrs|e] eqn:Ea.
    + split; [split; [discriminate|intros [|]; contradiction]|].
      split; [discriminate|].
      intros s E; injection E as <-.
      pose proof (resolve_all_length _ _ Ea).
      repeat split; simpl; try reflexivity.
      * destruct (pick rs); simpl in H0; congruence.
      * congruence.
    + destruct (resolve_all_err_addr _ _ Ea) as [m ->].
      split; [split; [discriminate|intros [|]; contradiction]|].
      split; [intros e E; injection E as <-; auto|discriminate].
  - split; [split; auto|split; [intros e E; injection E as <-; auto|discriminate]].
Qed.

(** ** The tunnel selector of the test program *)

Lemma poll_picks_indices n tuns idx :
  (0 < length tuns)%nat -> Z.of_nat (length tuns) < 2 ^ 32 ->
  0 <= idx -> idx + Z.of_nat n < 2 ^ 32 ->
  poll_picks n (mkTunnelPoll tuns idx) =
    Some (map (fun j => nth (Z.to_nat ((idx + 1 + Z.of_nat j) mod Z.of_nat (length tuns)))
                            tuns 0%nat) (seq 0 n),
          mkTunnelPoll tuns (idx + Z.of_nat n)).
Proof.
  intros HL HL32. revert idx; induction n as [|m IH]; intros idx H0 Hn.
  - simpl. rewrite Z.add_0_r. reflexivity.
  - cbn [poll_picks]. unfold TunnelPoll_Pick. cbn [poll_tunnels poll_idx].
    rewrite (Z.mod_small (idx + 1)) by lia.
    rewrite (Z.mod_small (Z.of_nat (length tuns))) by lia.
    replace (Z.of_nat (length tuns) =? 0) with false by (symmetry; apply Z.eqb_neq; lia).
    assert (Hi : (Z.to_nat ((idx + 1) mod Z.of_nat (length tuns)) < length tuns)%nat).
    { pose proof (Z.mod_pos_bound (idx + 1) (Z.of_nat (length tuns)) ltac:(lia)). lia. }
    destruct (nth_error_lt tuns _ Hi) as [x Ex]. rewrite Ex.
    rewrite IH by lia. cbv iota zeta.
    cbn [seq map]. rewrite <- seq_shift, map_map.
    replace (idx + 1 + Z.of_nat 0) with (idx + 1) by lia.
    rewrite (@nth_error_nth' tunnel _ _ _ 0%nat Ex).
    f_equal. f_equal; [f_equal; apply map_ext; intros j; do 3 f_equal; lia|f_equal; lia].
Qed.

Lemma nth_skipn' {A} (l : list A) r j d : nth j (skipn r l) d = nth (r + j) l d.
Proof.
  revert l; induction r as [|r IH]; intros l; [reflexivity|].
  destruct l; simpl; [destruct j; reflexivity|apply IH].
Qed.

Lemma nth_map_seq {A} (f : nat -> A) n j d : (j < n)%nat -> nth j (map f (seq 0 n)) d = f j.
Proof.
  intros H. rewrite (nth_indep _ d (f 0%nat)) by (rewrite length_map, length_seq; exact H).
  rewrite map_nth, seq_nth by exact H. reflexivity.
Qed.

(** [TunnelPoll.Pick] is round robin: as long as its [uint32] index does
    not wrap around, [len(tunnels)] picks in a row return every tunnel
    once, the tunnels rotated to the one after the index. *)
Theorem TunnelPoll_round_robin :
  forall tuns idx,
    (0 < length tuns)%nat -> Z.of_nat (length tuns) < 2 ^ 32 ->
    0 <= idx -> idx + Z.of_nat (length tuns) < 2 ^ 32 ->
    let r := Z.to_nat ((idx + 1) mod Z.of_nat (length tuns)) in
    exists ts,
      poll_picks (length tuns) (mkTunnelPoll tuns idx) =
        Some (ts, mkTunnelPoll tuns (idx + Z.of_nat (length tuns))) /\
      ts = skipn r tuns ++ firstn r tuns /\ Permutation ts tuns.
Proof.
  intros tuns idx HL HL32 H0 Hn r.
  rewrite poll_picks_indices by assumption.
  set (L := length tuns) in *.
  assert (Hr : (r < L)%nat).
  { unfold r. pose proof (Z.mod_pos_bound (idx + 1) (Z.of_nat L) ltac:(lia)). lia. }
  assert (Rot : map (fun j => nth (Z.to_nat ((idx + 1 + Z.of_nat j) mod Z.of_nat L)) tuns 0%nat)
                    (seq 0 L) = skipn r tuns ++ firstn r tuns).
  { apply nth_ext with (d := 0%nat) (d' := 0%nat).
    - rewrite length_map, length_seq, length_app, length_skipn, length_firstn. fold L. lia.
    - intros j Hj. rewrite length_map, length_seq in Hj.
      rewrite nth_map_seq by exact Hj.
      assert (Dm : (idx + 1 + Z.of_nat j) mod Z.of_nat L =
                   ((idx + 1) mod Z.of_nat L + Z.of_nat j) mod Z.of_nat L).
      { rewrite Z.add_mod_idemp_l by lia. reflexivity. }
      assert (Rz : (idx + 1) mod Z.of_nat L = Z.of_nat r).
      { unfold r. rewrite Z2Nat.id; [reflexivity|].
        apply Z.mod_pos_bound; lia. }
      rewrite Dm, Rz.
      destruct (Nat.ltb_spec j (L - r)) as [Hs|Hs].
      + rewrite app_nth1 by (rewrite length_skipn; fold L; lia).
        rewrite nth_skipn', Z.mod_small by lia. f_equal. lia.
      + rewrite app_nth2 by (rewrite length_skipn; fold L; lia).
        rewrite length_skipn. fold L.
        rewrite nth_firstn. destruct (Nat.ltb_spec (j - (L - r)) r) as [_|]; [|lia].
        replace (Z.of_nat r + Z.of_nat j) with (Z.of_nat (r + j - L) + 1 * Z.of_nat L) by lia.
        rewrite Z.mod_add, Z.mod_small by lia. f_equal. lia. }
  eexists; split; [reflexivity|]. split; [exact Rot|].
  rewrite Rot. eapply Permutation_trans; [apply Permutation_app_comm|].
  rewrite firstn_skipn. apply Permutation_refl.
Qed.

Lemma TunnelPoll_Pick_in p tn p' :
  TunnelPoll_Pick p = Some (tn, p') -> In tn (poll_tunnels p) /\ poll_tunnels p' = poll_tunnels p.
Proof.
  unfold TunnelPoll_Pick. destruct (_ =? 0); [discriminate|].
  destruct (nth_error _ _) as [x|] eqn:E; [|discriminate].
  intros H; injection H as <- <-. split; [eapply nth_error_In; exact E|reflexivity].
Qed.

Lemma TunnelPoll_Pick_some p :
  poll_tunnels p <> [] -> Z.of_nat (length (poll_tunnels p)) < 2 ^ 32 ->
  exists tn p', TunnelPoll_Pick p = Some (tn, p').
Proof.
  intros Hne Hl. unfold TunnelPoll_Pick.
  assert (HL : (0 < length (poll_tunnels p))%nat)
    by (destruct (poll_tunnels p); [congruence|simpl; lia]).
  rewrite (Z.mod_small (Z.of_nat (length (poll_tunnels p)))) by lia.
  replace (Z.of_nat (length (poll_tunnels p)) =? 0) with false by (symmetry; apply Z.eqb_neq; lia).
  set (i := (poll_idx p + 1) mod 2 ^ 32).
  assert (Hi : (Z.to_nat (i mod Z.of_nat (length (poll_tunnels p))) < length (poll_tunnels p))%nat).
  { pose proof (Z.mod_pos_bound i (Z.of_nat (length (poll_tunnels p))) ltac:(lia)). lia. }
  destruct (nth_error_lt _ _ Hi) as [x E]. rewrite E. eauto.
Qed.

(** [TestSelector.Pick] returns one tunnel per endpoint, taken from the
    loopback poll for a loopback host and from the other poll otherwise,
    and keeps the polls' tunnels; it does not panic when every endpoint
    splits into host and port and the poll it needs is not empty. *)
Theorem TestSelector_Pick_spec :
  forall (SplitHostPort : list byte -> option (list byte)) (IsLoopbackHost : list byte -> bool)
    (tsel : TestSelector) (rs : list (list byte)),
    let poll_of h := if IsLoopbackHost h then loopPoll tsel else otherPoll tsel in
    ((forall r, In r rs -> exists h, SplitHostPort r = Some h /\
        poll_tunnels (poll_of h) <> [] /\ Z.of_nat (length (poll_tunnels (poll_of h))) < 2 ^ 32) ->
     exists ts tsel', TestSelector_Pick SplitHostPort IsLoopbackHost tsel rs = Some (ts, tsel')) /\
    (forall ts tsel', TestSelector_Pick SplitHostPort IsLoopbackHost tsel rs = Some (ts, tsel') ->
       length ts = length rs /\
       Forall2 (fun r tn => exists h, SplitHostPort r = Some h /\ In tn (poll_tunnels (poll_of h)))
               rs ts /\
       poll_tunnels (loopPoll tsel') = poll_tunnels (loopPoll tsel) /\
       poll_tunnels (otherPoll tsel') = poll_tunnels (otherPoll tsel)).
Proof.
  intros Split IsLoop tsel rs poll_of. subst poll_of.
  revert tsel; induction rs as [|r rs IH]; intros tsel.
  - split; [intros _; eexists _, _; reflexivity|].
    intros ts tsel' H; injection H as <- <-. repeat split; constructor.
  - split.
    + intros Hall.
      destruct (Hall r (or_introl eq_refl)) as (h & Eh & Hne & Hl).
      cbn [TestSelector_Pick]. rewrite Eh.
      destruct (IsLoop h) eqn:El.
      * destruct (TunnelPoll_Pick_some _ Hne Hl) as (tn & p & Ep). rewrite Ep.
        destruct (proj1 (IH (mkTestSelector p (otherPoll tsel)))) as (ts & tsel' & E).
        { intros r' Hr'. destruct (Hall r' (or_intror Hr')) as (h' & E' & H1 & H2).
          exists h'. split; [exact E'|]. simpl.
          destruct (TunnelPoll_Pick_in _ _ _ Ep) as [_ Et].
          destruct (IsLoop h'); [rewrite Et|]; auto. }
        rewrite E. eauto.
      * destruct (TunnelPoll_Pick_some _ Hne Hl) as (tn & p & Ep). rewrite Ep.
        destruct (proj1 (IH (mkTestSelector (loopPoll tsel) p))) as (ts & tsel' & E).
        { intros r' Hr'. destruct (Hall r' (or_intror Hr')) as (h' & E' & H1 & H2).
          exists h'. split; [exact E'|]. simpl.
          destruct (TunnelPoll_Pick_in _ _ _ Ep) as [_ Et].
          destruct (IsLoop h'); [|rewrite Et]; auto. }
        rewrite E. eauto.
    + intros ts tsel' H. cbn [TestSelector_Pick] in H.
      destruct (Split r) as [h|] eqn:Eh; [|discriminate].
      destruct (IsLoop h) eqn:El.
      * destruct (TunnelPoll_Pick (loopPoll tsel)) as [[tn p]|] eqn:Ep; [|discriminate].
        destruct (TestSelector_Pick Split IsLoop (mkTestSelector p (otherPoll tsel)) rs)
          as [[ts' ttsel'']|] eqn:E; [|discriminate].
        injection H as <- <-.
        destruct (TunnelPoll_Pick_in _ _ _ Ep) as [Hin Et].
        destruct (proj2 (IH _) _ _ E) as (Hl & Hf & H1 & H2). simpl in H1, H2.
        split; [simpl; congruence|].
        split; [|split; congruence].
        constructor.
        -- exists h; rewrite El; auto.
        -- eapply Forall2_impl; [|exact Hf]. intros r' tn' (h' & E' & Hi).
           exists h'; split; [exact E'|]. simpl in Hi. destruct (IsLoop h'); [rewrite <- Et|]; auto.
      * destruct (TunnelPoll_Pick (otherPoll tsel)) as [[tn p]|] eqn:Ep; [|discriminate].
        destruct (TestSelector_Pick Split IsLoop (mkTestSelector (loopPoll tsel) p) rs)
          as [[ts' ttsel'']|] eqn:E; [|discriminate].
        injection H as <- <-.
        destruct (TunnelPoll_Pick_in _ _ _ Ep) as [Hin Et].
        destruct (proj2 (IH _) _ _ E) as (Hl & Hf & H1 & H2). simpl in H1, H2.
        split; [simpl; congruence|].
        split; [|split; congruence].
        constructor.
        -- exists h; rewrite El; auto.
        -- eapply Forall2_impl; [|exact Hf]. intros r' tn' (h' & E' & Hi).
           exists h'; split; [exact E'|]. simpl in Hi. destruct (IsLoop h'); [|rewrite <- Et]; auto.
Qed.

(** ** Parallel transmission *)

(** [parallelTun]: a segment sent for the [parallelXmit]-th time opens a
    window of [parallelTime] in which every output goes to all tunnels,
    whatever its transmission count; the first output after the window
    with a lower count goes to one tunnel and closes the window. *)
Theorem parallelTun_window :
  forall s x,
    (parallelXmit s <= x)%N -> 0 < parallelTime s -> 0 <= now s ->
    let s1 := snd (parallelTun s x) in
    fst (parallelTun s x) = length (tunnels s) /\
    (forall d y, 0 <= d < parallelTime s ->
       fst (parallelTun (set_now s1 (now s + d)) y) = length (tunnels s)) /\
    (forall d y, parallelTime s <= d -> (y < parallelXmit s)%N ->
       parallelTun (set_now s1 (now s + d)) y =
         (1%nat, set_parallelExpire (set_now s1 (now s + d)) 0)).
Proof.
  intros s x Hx Hp Hn s1.
  assert (E : parallelTun s x = (length (tunnels s), set_parallelExpire s (now s + parallelTime s)))
    by (unfold parallelTun; rewrite (proj2 (N.leb_le _ _) Hx); reflexivity).
  unfold s1; rewrite E; simpl fst; simpl snd.
  split; [reflexivity|split].
  - intros d y Hd. unfold parallelTun. simpl.
    destruct (N.leb _ y); [reflexivity|].
    unfold IsZero, After.
    rewrite (proj2 (Z.eqb_neq _ 0)) by lia.
    rewrite (proj2 (Z.ltb_lt _ _)) by lia. reflexivity.
  - intros d y Hd Hy. unfold parallelTun. simpl.
    rewrite (proj2 (N.leb_gt _ _) Hy).
    unfold IsZero, After.
    rewrite (proj2 (Z.eqb_neq _ 0)) by lia.
    rewrite (proj2 (Z.ltb_ge _ _)) by lia. reflexivity.
Qed.

(** ** Write delay *)

Lemma write_segments_keeps fuel flag m b k k' tl :
  write_segments fuel flag m b k = Some (k', tl) ->
  snd_buf k' = snd_buf k /\ snd_wnd k' = snd_wnd k /\ rmt_wnd k' = rmt_wnd k.
Proof.
  revert b k; induction fuel as [|f IH]; intros b k H; cbn [write_segments] in H;
    [discriminate|].
  destruct (Nat.ltb _ _).
  - injection H as <- <-. auto.
  - apply IH in H. destruct H as (H1 & H2 & H3). rewrite H1, H2, H3. auto.
Qed.

Lemma kcp_flush_aux_windows fuel k out :
  WaitSnd (fst (kcp_flush_aux fuel k out)) = WaitSnd k /\
  snd_wnd (fst (kcp_flush_aux fuel k out)) = snd_wnd k /\
  rmt_wnd (fst (kcp_flush_aux fuel k out)) = rmt_wnd k.
Proof.
  revert k out; induction fuel as [|f IH]; intros k out; cbn [kcp_flush_aux]; [auto|].
  destruct (snd_queue k) as [|seg q] eqn:Eq; [auto|].
  destruct (Nat.ltb _ _); [|auto].
  destruct (IH (mkKCP (mss k) (snd_wnd k) (rmt_wnd k) q (snd_buf k ++ [(seg, 1%nat)]) (rcv_queue k))
               (out ++ [(repeat x00 (gouuid_Size + IKCP_OVERHEAD) ++ seg, 1%nat)]))
    as (H1 & H2 & H3).
  rewrite H1, H2, H3. unfold WaitSnd; simpl. rewrite Eq, length_app. simpl. lia.
Qed.

Lemma kcp_output_kcp s buf size x pool s' :
  kcp_output s buf size x pool = Some s' -> kcp s' = kcp s.
Proof.
  unfold kcp_output; destruct (Nat.leb _ _); intros H; [|congruence].
  unfold output in H.
  assert (Ek : kcp (snd (parallelTun s x)) = kcp s)
    by (unfold parallelTun; destruct (N.leb _ _); [|destruct (IsZero _); [|destruct (After _ _)]];
        reflexivity).
  destruct (parallelTun s x) as [k s1]. simpl in Ek.
  destruct (output_copies _ _ _ _ _ _); [|discriminate]. injection H as <-. exact Ek.
Qed.

Lemma output_all_kcp segs s s' : output_all s segs = Some s' -> kcp s' = kcp s.
Proof.
  revert s; induction segs as [|[b x] t IH]; simpl; intros s H.
  - congruence.
  - destruct (kcp_output s b _ _ _) as [s1|] eqn:E; [|discriminate].
    rewrite (IH _ H). exact (kcp_output_kcp _ _ _ _ _ _ E).
Qed.

(** [flush] keeps the number of segments waiting and the two windows. *)
Lemma flush_windows s b s' :
  flush s b = Some s' ->
  WaitSnd (kcp s') = WaitSnd (kcp s) /\ snd_wnd (kcp s') = snd_wnd (kcp s) /\
  rmt_wnd (kcp s') = rmt_wnd (kcp s).
Proof.
  unfold flush; intros H.
  assert (G : forall s1, (if b then let (k', segs) := kcp_flush (kcp s) in
                                     output_all (set_kcp s k') segs else Some s) = Some s1 ->
                         WaitSnd (kcp s1) = WaitSnd (kcp s) /\ snd_wnd (kcp s1) = snd_wnd (kcp s) /\
                         rmt_wnd (kcp s1) = rmt_wnd (kcp s)).
  { intros s1 E. destruct b; [|injection E as <-; auto].
    unfold kcp_flush in E.
    pose proof (kcp_flush_aux_windows (length (snd_queue (kcp s))) (kcp s) []) as W.
    destruct (kcp_flush_aux _ _ _) as [k' segs]. simpl in W.
    rewrite (output_all_kcp _ _ _ E). exact W. }
  destruct (if b then _ else _) as [s1|] eqn:E1; [|discriminate].
  destruct (G s1 eq_refl) as (W1 & W2 & W3).
  destruct (msgss s1) as [|m t].
  - injection H as <-. destruct (_ && _); auto.
  - destruct (handoff _ _ _ _); [|discriminate]. injection H as <-.
    destruct (_ && _); auto.
Qed.

Lemma flush_empties s b s' : flush s b = Some s' -> msgss s' = [].
Proof.
  unfold flush; intros H.
  destruct (if b then _ else _) as [s1|]; [|discriminate].
  destruct (msgss s1) as [|m t] eqn:Em.
  - injection H as <-. destruct (_ && _); exact Em.
  - destruct (handoff _ _ _ _); [|discriminate]. injection H as <-.
    destruct (_ && _); reflexivity.
Qed.

(** [SetWriteDelay]: without write delay, a [Write] that queues data
    flushes at once, and leaves no datagram batched; with write delay, a
    [Write] that leaves the send window open flushes nothing: no datagram
    is batched or handed to a tunnel, no segment is put in flight. *)
Theorem write_delay_flush :
  forall s flag b s' n,
    write_loop s flag b = Some (ODone s' (n, None)) ->
    (writeDelay s = false -> msgss s' = []) /\
    (writeDelay s = true ->
     (WaitSnd (kcp s') < snd_wnd (kcp s'))%nat -> (WaitSnd (kcp s') < rmt_wnd (kcp s'))%nat ->
     msgss s' = msgss s /\ wire s' = wire s /\ snd_buf (kcp s') = snd_buf (kcp s)).
Proof.
  intros s flag b s' n H. unfold write_loop in H.
  destruct (_ && _).
  - destruct (write_segments _ _ _ _ _) as [[k' tl]|] eqn:Ews; [|discriminate].
    cbv zeta in H.
    pose proof (write_segments_keeps _ _ _ _ _ _ _ Ews) as (K1 & K2 & K3).
    destruct (_ || _ || _) eqn:Ef.
    + destruct (flush (set_kcp s k') true) as [s2|] eqn:Efl; [|discriminate].
      injection H as <- _.
      split; [intros _; exact (flush_empties _ _ _ Efl)|].
      intros Hd Hw1 Hw2. exfalso.
      destruct (flush_windows _ _ _ Efl) as (W1 & W2 & W3). simpl in W1, W2, W3, Hw1, Hw2.
      rewrite Hd in Ef. unfold WaitSnd in *.
      destruct (Nat.leb_spec (snd_wnd k') (length (snd_buf k') + length (snd_queue k'))),
        (Nat.leb_spec (rmt_wnd k') (length (snd_buf k') + length (snd_queue k')));
        simpl in Ef; try discriminate; lia.
    + injection H as <- _.
      split; [intros Hd; rewrite Hd in Ef; rewrite !orb_true_r in Ef; discriminate|].
      intros _ _ _. simpl. auto.
  - unfold wait_or_timeout in H.
    destruct (IsZero _); [discriminate|]. destruct (After _ _); discriminate.
Qed.

End More.

(** ** Concrete instances of the further properties *)

(** A run of [Read] that gets past its first [select] and returns. *)
Ltac read_run :=
  eapply tsteps_step; [apply t_read_entry; apply select_default; reflexivity|];
  eapply tsteps_step; [apply t_read_done; vm_compute; reflexivity|apply tsteps_refl].

(** [stream0] with three bytes left over from an earlier message. *)
Definition stream_buf3 : UDPStream := set_bufptr stream0 [x61; x62; x63].

Lemma read_buffered_split_witness :
  exists s' r,
    (read_open stream_buf3 /\ bufptr stream_buf3 <> [] /\
     tsteps resolve_any stream_buf3 (PRead 2) s' (PDone r)) /\
    (let n := Nat.min 2 (length (bufptr stream_buf3)) in
     r = RRead (firstn n (bufptr stream_buf3)) None /\
     firstn n (bufptr stream_buf3) ++ bufptr s' = bufptr stream_buf3 /\
     s' = add_BytesReceived (set_bufptr stream_buf3 (skipn n (bufptr stream_buf3))) n).
Proof.
  assert (Ho : read_open stream_buf3) by (repeat split).
  assert (Hb : bufptr stream_buf3 <> []) by discriminate.
  do 2 eexists.
  assert (R : tsteps resolve_any stream_buf3 (PRead 2) ?[s'] (PDone ?[r])) by read_run.
  split; [split; [exact Ho|split; [exact Hb|exact R]]|].
  exact (read_buffered_split resolve_any stream_buf3 2 _ _ Ho Hb R).
Defined.

(** [stream0] with one data message of three bytes queued. *)
Definition stream_psh : UDPStream :=
  set_kcp stream0 (mkKCP 1360 32 32 [] [] [[PSH; x61; x62; x63]]).

Lemma read_psh_message_witness :
  exists s' r,
    (read_open stream_psh /\ bufptr stream_psh = [] /\
     rcv_queue (kcp stream_psh) = (PSH :: [x61; x62; x63]) :: [] /\
     tsteps resolve_any stream_psh (PRead 2) s' (PDone r)) /\
    (let n := Nat.min 2 (length [x61; x62; x63]) in
     r = RRead (firstn n [x61; x62; x63]) None /\ bufptr s' = skipn n [x61; x62; x63] /\
     firstn n [x61; x62; x63] ++ bufptr s' = [x61; x62; x63] /\ rcv_queue (kcp s') = [] /\
     BytesReceived (snmp s') = u64_add (BytesReceived (snmp stream_psh)) (Z.of_nat (S n))).
Proof.
  assert (Ho : read_open stream_psh) by (repeat split).
  do 2 eexists.
  assert (R : tsteps resolve_any stream_psh (PRead 2) ?[s'] (PDone ?[r])) by read_run.
  split; [split; [exact Ho|split; [reflexivity|split; [reflexivity|exact R]]]|].
  exact (read_psh_message resolve_any stream_psh 2 [x61; x62; x63] [] _ _ Ho
           eq_refl eq_refl R).
Defined.

Lemma read_unknown_tag_payload_kept_witness :
  exists s2 r2,
    (read_open streamR /\ bufptr streamR = [] /\ rcv_queue (kcp streamR) = (x39 :: [x61]) :: [] /\
     x39 <> PSH /\ x39 <> SYN /\ x39 <> FIN /\ x39 <> HRT /\ x39 <> RST /\ [x61] <> [] /\
     tsteps resolve_any streamR (PRead 10) streamR_after
            (PDone (RRead [] (Some errStreamFlag))) /\
     tsteps resolve_any streamR_after (PRead 10) s2 (PDone r2)) /\
    (RRead [] (Some errStreamFlag) = RRead [] (Some errStreamFlag) /\
     bufptr streamR_after = [x61] /\
     r2 = RRead (firstn (Nat.min 10 (length [x61])) [x61]) None).
Proof.
  assert (Ho : read_open streamR) by (repeat split).
  do 2 eexists.
  assert (R2 : tsteps resolve_any streamR_after (PRead 10) ?[s2] (PDone ?[r2])) by read_run.
  split.
  - repeat split; try exact Ho; try discriminate; [exact streamR_read_run|exact R2].
  - exact (read_unknown_tag_payload_kept resolve_any streamR x39 [x61] [] 10 _ _ 10 _ _ Ho
             eq_refl eq_refl ltac:(discriminate) ltac:(discriminate) ltac:(discriminate)
             ltac:(discriminate) ltac:(discriminate) ltac:(discriminate)
             streamR_read_run R2).
Defined.

(** [stream0] with one heartbeat message queued. *)
Definition stream_hrt : UDPStream := set_kcp stream0 (mkKCP 1360 32 32 [] [] [[HRT]]).

Lemma read_control_messages_witness :
  exists s' r,
    (read_open stream_hrt /\ bufptr stream_hrt = [] /\
     rcv_queue (kcp stream_hrt) = (HRT :: []) :: [] /\
     recvFinOnce stream_hrt = false /\ rstOnce stream_hrt = false /\
     tsteps resolve_any stream_hrt (PRead 10) s' (PDone r)) /\
    (HRT = HRT -> r = RRead [] None /\ bufptr s' = [] /\ rcv_queue (kcp s') = [] /\
                  read_open s') /\
    (HRT = FIN -> r = RRead [] (Some EOF) /\ bufptr s' = [] /\ rcv_queue (kcp s') = [] /\
                  chRecvFinEvent s' = true) /\
    (HRT = RST -> r = RRead [] (Some ErrUnexpectedEOF) /\ bufptr s' = [] /\
                  rcv_queue (kcp s') = [] /\
                  chRst s' = true /\ snd_queue (kcp s') = [] /\ snd_buf (kcp s') = []).
Proof.
  assert (Ho : read_open stream_hrt) by (repeat split).
  do 2 eexists.
  assert (R : tsteps resolve_any stream_hrt (PRead 10) ?[s'] (PDone ?[r])) by read_run.
  split; [repeat split; try exact Ho; exact R|].
  exact (read_control_messages resolve_any stream_hrt 10 HRT [] [] _ _ Ho
           eq_refl eq_refl eq_refl eq_refl R).
Defined.

(** [stream0] after [Close] has closed [chClose]. *)
Definition stream_closed : UDPStream := set_chClose stream0 true.

(** A second passes on the closed stream, with a reader waiting. *)
Lemma stream_closed_tick :
  sys_steps resolve_any (stream_closed, [PRead 10])
    (set_now stream_closed (now stream_closed + Second), [PRead 10]).
Proof.
  eapply sys_trans; [apply (sys_tick resolve_any _ _ Second)|apply sys_refl].
  unfold Second; lia.
Qed.

Lemma write_fails_after_signal_witness :
  (chClose stream_closed = true \/ chRst stream_closed = true \/
   chSendFinEvent stream_closed = true) /\
  sys_steps resolve_any (stream_closed, [PRead 10])
    (set_now stream_closed (now stream_closed + Second), [PRead 10]) /\
  tstep resolve_any (set_now stream_closed (now stream_closed + Second)) (PWrite PSH [x61] KWrite)
    (set_now stream_closed (now stream_closed + Second)) (PWriteRet KWrite 0 (Some ErrClosedPipe)) /\
  (set_now stream_closed (now stream_closed + Second) =
     set_now stream_closed (now stream_closed + Second) /\
   exists e, PWriteRet KWrite 0 (Some ErrClosedPipe) = PWriteRet KWrite 0 (Some e) /\
             (e = ErrClosedPipe \/ e = ErrUnexpectedEOF)).
Proof.
  assert (Hs : chClose stream_closed = true \/ chRst stream_closed = true \/
               chSendFinEvent stream_closed = true) by (left; reflexivity).
  assert (T : tstep resolve_any (set_now stream_closed (now stream_closed + Second))
                (PWrite PSH [x61] KWrite) (set_now stream_closed (now stream_closed + Second))
                (PWriteRet KWrite 0 (Some ErrClosedPipe))).
  { apply t_write_entry_err; apply select_case; left; reflexivity. }
  split; [exact Hs|split; [exact stream_closed_tick|split; [exact T|]]].
  exact (write_fails_after_signal resolve_any stream_closed _ _ _ PSH [x61] KWrite _ _ Hs
           stream_closed_tick T).
Defined.

Lemma read_fails_after_signal_witness :
  (chClose stream_closed = true \/ chRst stream_closed = true \/
   chRecvFinEvent stream_closed = true) /\
  sys_steps resolve_any (stream_closed, [PRead 10])
    (set_now stream_closed (now stream_closed + Second), [PRead 10]) /\
  let s' := set_now stream_closed (now stream_closed + Second) in
  (forall blen s2 p2, tstep resolve_any s' (PRead blen) s2 p2 ->
     s2 = s' /\ exists e, p2 = PDone (RRead [] (Some e)) /\
                          (e = ErrClosedPipe \/ e = ErrUnexpectedEOF \/ e = EOF)) /\
  (forall s2 p2, tstep resolve_any s' PAccept s2 p2 ->
     s2 = s' /\ exists e, p2 = PDone (RErr (Some e)) /\
                          (e = ErrClosedPipe \/ e = ErrUnexpectedEOF \/ e = EOF)).
Proof.
  assert (Hs : chClose stream_closed = true \/ chRst stream_closed = true \/
               chRecvFinEvent stream_closed = true) by (left; reflexivity).
  split; [exact Hs|split; [exact stream_closed_tick|]].
  exact (read_fails_after_signal resolve_any stream_closed _ _ _ Hs stream_closed_tick).
Defined.

Lemma links_invariant_witness :
  links_ok stream0 /\
  sys_steps resolve_any (stream0, [PRead 10]) (set_now stream0 (now stream0 + Second), [PRead 10]) /\
  links_ok (set_now stream0 (now stream0 + Second)).
Proof.
  assert (Hl : links_ok stream0) by (split; [discriminate|reflexivity]).
  assert (R : sys_steps resolve_any (stream0, [PRead 10])
                (set_now stream0 (now stream0 + Second), [PRead 10])).
  { eapply sys_trans; [apply (sys_tick resolve_any _ _ Second)|apply sys_refl].
    unfold Second; lia. }
  split; [exact Hl|split; [exact R|]].
  exact (links_invariant resolve_any stream0 _ _ _ Hl R).
Defined.

Lemma kcp_output_never_panics_witness :
  links_ok stream0 /\ (42 <= length seg42)%nat /\ (42 <= mtuLimit)%nat /\
  kcp_output stream0 seg42 42 0%N xmitBuf_Get <> None.
Proof.
  assert (Hl : links_ok stream0) by (split; [discriminate|reflexivity]).
  assert (H1 : (42 <= length seg42)%nat) by (vm_compute; lia).
  assert (H2 : (42 <= mtuLimit)%nat) by (unfold mtuLimit; lia).
  split; [exact Hl|split; [exact H1|split; [exact H2|]]].
  exact (kcp_output_never_panics stream0 seg42 42 0%N Hl H1 H2).
Defined.

Lemma kcp_output_copy_count_witness :
  kcp_output stream0 seg42 42 0%N xmitBuf_Get = Some out42 /\
  forall i, length (nth i (msgss out42) []) =
    (length (nth i (msgss stream0) []) +
     if Nat.leb (IKCP_OVERHEAD + gouuid_Size) 42 && Nat.ltb i (fst (parallelTun stream0 0%N))
     then 1 else 0)%nat.
Proof.
  assert (E : kcp_output stream0 seg42 42 0%N xmitBuf_Get = Some out42)
    by (vm_compute; reflexivity).
  split; [exact E|].
  exact (kcp_output_copy_count stream0 seg42 42 0%N xmitBuf_Get out42 E).
Defined.

Lemma flush_hands_off_batches_witness :
  (if false then let (k', segs) := kcp_flush (kcp out42) in output_all (set_kcp out42 k') segs
   else Some out42) = Some out42 /\
  (length (msgss out42) <= length (tunnels out42))%nat /\
  exists s', flush out42 false = Some s' /\ msgss s' = [] /\ kcp s' = kcp out42 /\
    wire s' = wire out42 ++ filter (fun p => match snd p with [] => false | _ => true end)
                                   (combine (tunnels out42) (msgss out42)).
Proof.
  assert (Hl : (length (msgss out42) <= length (tunnels out42))%nat) by (vm_compute; lia).
  split; [reflexivity|split; [exact Hl|]].
  exact (flush_hands_off_batches out42 false out42 eq_refl Hl).
Defined.

Lemma write_segments_chunks_witness :
  (2 <= mss kcp0)%nat /\
  exists chunks k' tail,
    write_segments (S (length payload2000)) PSH (mss kcp0) payload2000 kcp0 = Some (k', tail) /\
    chunks <> [] /\ concat chunks = payload2000 /\ last chunks [] = tail /\
    Forall (fun c => length c < mss kcp0)%nat chunks /\
    Forall (fun c => length c = mss kcp0 - 1)%nat (removelast chunks) /\
    snd_queue k' = snd_queue kcp0 ++ map (cons PSH) chunks /\
    mss k' = mss kcp0 /\ snd_wnd k' = snd_wnd kcp0 /\ rmt_wnd k' = rmt_wnd kcp0 /\
    snd_buf k' = snd_buf kcp0 /\ rcv_queue k' = rcv_queue kcp0.
Proof.
  assert (Hm : (2 <= mss kcp0)%nat) by (simpl; lia).
  split; [exact Hm|].
  exact (write_segments_chunks PSH payload2000 kcp0 Hm).
Defined.

(** [stream0] with a send window of one segment, already taken. *)
Definition stream_full : UDPStream := set_kcp stream0 (mkKCP 1360 1 32 [[PSH]] [] []).

(** [stream_full] whose write deadline passed a second ago. *)
Definition stream_full_late : UDPStream := set_wd stream_full (t0 - Second).

Lemma write_deadline_passed_witness :
  let s' := stream_full_late in let r := RInt 0 (Some errTimeout) in
    write_open stream_full_late /\ window_full (kcp stream_full_late) /\
    wd stream_full_late <> 0 /\ wd stream_full_late < now stream_full_late /\
    (tsteps resolve_any stream_full_late (PWrite PSH [x61] KWrite) s' (PDone r) <->
     s' = stream_full_late /\ r = RInt 0 (Some errTimeout)).
Proof.
  intros s' r.
  clearbody s' r.
  assert (Ho : write_open stream_full_late) by (repeat split).
  assert (Hw : window_full (kcp stream_full_late)) by (left; simpl; unfold WaitSnd; simpl; lia).
  assert (H0 : wd stream_full_late <> 0) by (simpl; unfold t0, Second; lia).
  assert (Hl : wd stream_full_late < now stream_full_late) by (simpl; unfold t0, Second; lia).
  split; [exact Ho|split; [exact Hw|split; [exact H0|split; [exact Hl|]]]].
  exact (write_deadline_passed resolve_any stream_full_late PSH [x61] s' r Ho Hw H0 Hl).
Defined.

Lemma write_no_deadline_blocks_witness :
  write_open stream_full /\ window_full (kcp stream_full) /\ wd stream_full = 0 /\
  tsteps resolve_any stream_full (PWrite PSH [x61] KWrite) stream_full
         (PWriteWait PSH [x61] None KWrite) /\
  ((PWriteWait PSH [x61] None KWrite = PWrite PSH [x61] KWrite \/
    PWriteWait PSH [x61] None KWrite = PWriteLoop PSH [x61] KWrite \/
    PWriteWait PSH [x61] None KWrite = PWriteWait PSH [x61] None KWrite) /\
   kcp stream_full = kcp stream_full /\
   (forall r, PWriteWait PSH [x61] None KWrite <> PDone r)).
Proof.
  assert (Ho : write_open stream_full) by (repeat split).
  assert (Hw : window_full (kcp stream_full)) by (left; simpl; unfold WaitSnd; simpl; lia).
  assert (R : tsteps resolve_any stream_full (PWrite PSH [x61] KWrite) stream_full
                (PWriteWait PSH [x61] None KWrite)).
  { eapply tsteps_step; [apply t_write_entry; apply select_default; reflexivity|].
    eapply tsteps_step; [apply t_write_block; vm_compute; reflexivity|apply tsteps_refl]. }
  split; [exact Ho|split; [exact Hw|split; [reflexivity|split; [exact R|]]]].
  exact (write_no_deadline_blocks resolve_any stream_full PSH [x61] _ _ Ho Hw eq_refl R).
Defined.

(** [stream0] whose read deadline passed a second ago. *)
Definition stream_read_late : UDPStream := set_rd stream0 (t0 - Second).

Lemma read_deadline_passed_witness :
  let s' := stream_read_late in let r := RRead [] (Some errTimeout) in
    read_open stream_read_late /\ bufptr stream_read_late = [] /\
    PeekSize (kcp stream_read_late) <= 0 /\ rd stream_read_late <> 0 /\
    rd stream_read_late < now stream_read_late /\
    (tsteps resolve_any stream_read_late (PRead 10) s' (PDone r) <->
     s' = stream_read_late /\ r = RRead [] (Some errTimeout)).
Proof.
  intros s' r.
  clearbody s' r.
  assert (Ho : read_open stream_read_late) by (repeat split).
  assert (Hp : PeekSize (kcp stream_read_late) <= 0) by (vm_compute; discriminate).
  assert (H0 : rd stream_read_late <> 0) by (simpl; unfold t0, Second; lia).
  assert (Hl : rd stream_read_late < now stream_read_late) by (simpl; unfold t0, Second; lia).
  split; [exact Ho|split; [reflexivity|split; [exact Hp|split; [exact H0|split; [exact Hl|]]]]].
  exact (read_deadline_passed resolve_any stream_read_late 10 s' r Ho eq_refl Hp H0 Hl).
Defined.

Lemma set_read_deadline_wakes_reader_witness :
  read_open stream0 /\ bufptr stream0 = [] /\ PeekSize (kcp stream0) <= 0 /\
  t0 - Second <> 0 /\ t0 - Second < now stream0 /\
  (SetReadDeadline stream0 (t0 - Second) = SetReadDeadline stream0 (t0 - Second) \/
   SetReadDeadline stream0 (t0 - Second) = SetDeadline stream0 (t0 - Second)) /\
  (forall s' r, tsteps resolve_any (SetReadDeadline stream0 (t0 - Second)) (PReadWait 10 None)
                  s' (PDone r) -> r = RRead [] (Some errTimeout)) /\
  exists s', tsteps resolve_any (SetReadDeadline stream0 (t0 - Second)) (PReadWait 10 None) s'
               (PDone (RRead [] (Some errTimeout))).
Proof.
  assert (Ho : read_open stream0) by (repeat split).
  assert (Hp : PeekSize (kcp stream0) <= 0) by (vm_compute; discriminate).
  assert (H0 : t0 - Second <> 0) by (unfold t0, Second; lia).
  assert (Hl : t0 - Second < now stream0) by (simpl; unfold t0, Second; lia).
  assert (Hs : SetReadDeadline stream0 (t0 - Second) = SetReadDeadline stream0 (t0 - Second) \/
               SetReadDeadline stream0 (t0 - Second) = SetDeadline stream0 (t0 - Second))
    by (left; reflexivity).
  split; [exact Ho|split; [reflexivity|split; [exact Hp|split; [exact H0|split; [exact Hl|]]]]].
  split; [exact Hs|].
  exact (set_read_deadline_wakes_reader resolve_any stream0 (t0 - Second) 10 None Ho eq_refl Hp
           H0 Hl _ Hs).
Defined.

Lemma set_write_deadline_wakes_writer_witness :
  write_open stream_full /\ window_full (kcp stream_full) /\
  t0 - Second <> 0 /\ t0 - Second < now stream_full /\
  (SetDeadline stream_full (t0 - Second) = SetWriteDeadline stream_full (t0 - Second) \/
   SetDeadline stream_full (t0 - Second) = SetDeadline stream_full (t0 - Second)) /\
  (forall s' r, tsteps resolve_any (SetDeadline stream_full (t0 - Second))
                  (PWriteWait PSH [x61] None KWrite) s' (PDone r) ->
                r = RInt 0 (Some errTimeout)) /\
  exists s', tsteps resolve_any (SetDeadline stream_full (t0 - Second))
               (PWriteWait PSH [x61] None KWrite) s' (PDone (RInt 0 (Some errTimeout))).
Proof.
  assert (Ho : write_open stream_full) by (repeat split).
  assert (Hw : window_full (kcp stream_full)) by (left; simpl; unfold WaitSnd; simpl; lia).
  assert (H0 : t0 - Second <> 0) by (unfold t0, Second; lia).
  assert (Hl : t0 - Second < now stream_full) by (simpl; unfold t0, Second; lia).
  assert (Hs : SetDeadline stream_full (t0 - Second) = SetWriteDeadline stream_full (t0 - Second) \/
               SetDeadline stream_full (t0 - Second) = SetDeadline stream_full (t0 - Second))
    by (right; reflexivity).
  split; [exact Ho|split; [exact Hw|split; [exact H0|split; [exact Hl|split; [exact Hs|]]]]].
  exact (set_write_deadline_wakes_writer resolve_any stream_full (t0 - Second) PSH [x61] None
           Ho Hw H0 Hl _ Hs).
Defined.

(** The endpoints ["a"] and ["b"], and [stream0] with the SYN a [Dial] to
    them sends queued. *)
Definition locals_ab : list (list byte) := [[x61]; [x62]].
Definition stream_syn_ab : UDPStream :=
  set_kcp stream0 (mkKCP 1360 32 32 [] [] [SYN :: strings_Join locals_ab x20]).

Lemma dial_syn_accepted_witness :
  exists s' r,
    (read_open stream_syn_ab /\ recvSynOnce stream_syn_ab = false /\ locals_ab <> [] /\
     Forall (fun e => ~ In x20 e) locals_ab /\
     rcv_queue (kcp stream_syn_ab) = (SYN :: strings_Join locals_ab x20) :: [] /\
     (length (SYN :: strings_Join locals_ab x20) <= recvcap stream_syn_ab)%nat /\
     length (sel stream_syn_ab locals_ab) = length locals_ab /\
     resolve_all resolve_any locals_ab = inl [addr1; addr1] /\
     tsteps resolve_any stream_syn_ab PAccept s' (PDone r)) /\
    (r = RErr None /\ tunnels s' = sel stream_syn_ab locals_ab /\ remotes s' = [addr1; addr1] /\
     recvSynOnce s' = true /\ rcv_queue (kcp s') = [] /\ links_ok s').
Proof.
  assert (Ho : read_open stream_syn_ab) by (repeat split).
  assert (Hne : locals_ab <> []) by discriminate.
  assert (Hf : Forall (fun e => ~ In x20 e) locals_ab).
  { repeat constructor; simpl; intros [H|[]]; discriminate. }
  assert (Hc : (length (SYN :: strings_Join locals_ab x20) <= recvcap stream_syn_ab)%nat)
    by (apply Nat.leb_le; vm_compute; reflexivity).
  destruct (accept_body resolve_any stream_syn_ab) as [[s1 e1]|] eqn:E;
    [|vm_compute in E; discriminate E].
  exists s1, (RErr e1).
  assert (R : tsteps resolve_any stream_syn_ab PAccept s1 (PDone (RErr e1))).
  { eapply tsteps_step; [eapply t_accept; [apply select_default; reflexivity|exact E]|
                         apply tsteps_refl]. }
  split; [repeat split; try exact Ho; try exact Hne; try exact Hf; try exact Hc; try exact R|].
  exact (dial_syn_accepted resolve_any stream_syn_ab locals_ab [addr1; addr1] [] _ _ Ho
           eq_refl Hne Hf eq_refl Hc eq_refl eq_refl R).
Defined.


Lemma TunnelPoll_round_robin_witness :
  (0 < length [0; 1; 2])%nat /\ Z.of_nat (length [0; 1; 2]%nat) < 2 ^ 32 /\
  0 <= 5 /\ 5 + Z.of_nat (length [0; 1; 2]%nat) < 2 ^ 32 /\
  let r := Z.to_nat ((5 + 1) mod Z.of_nat (length [0; 1; 2]%nat)) in
  exists ts,
    poll_picks (length [0; 1; 2]%nat) (mkTunnelPoll [0; 1; 2]%nat 5) =
      Some (ts, mkTunnelPoll [0; 1; 2]%nat (5 + Z.of_nat (length [0; 1; 2]%nat))) /\
    ts = skipn r [0; 1; 2]%nat ++ firstn r [0; 1; 2]%nat /\ Permutation ts [0; 1; 2]%nat.
Proof.
  assert (H1 : (0 < length [0; 1; 2])%nat) by (simpl; lia).
  assert (H2 : Z.of_nat (length [0; 1; 2]%nat) < 2 ^ 32) by (simpl; lia).
  assert (H3 : 0 <= 5) by lia.
  assert (H4 : 5 + Z.of_nat (length [0; 1; 2]%nat) < 2 ^ 32) by (simpl; lia).
  split; [exact H1|split; [exact H2|split; [exact H3|split; [exact H4|]]]].
  exact (TunnelPoll_round_robin [0; 1; 2]%nat 5 H1 H2 H3 H4).
Defined.

Lemma parallelTun_window_witness :
  (parallelXmit stream0 <= 5)%N /\ 0 < parallelTime stream0 /\ 0 <= now stream0 /\
  let s1 := snd (parallelTun stream0 5) in
  fst (parallelTun stream0 5) = length (tunnels stream0) /\
  (forall d y, 0 <= d < parallelTime stream0 ->
     fst (parallelTun (set_now s1 (now stream0 + d)) y) = length (tunnels stream0)) /\
  (forall d y, parallelTime stream0 <= d -> (y < parallelXmit stream0)%N ->
     parallelTun (set_now s1 (now stream0 + d)) y =
       (1%nat, set_parallelExpire (set_now s1 (now stream0 + d)) 0)).
Proof.
  assert (H1 : (parallelXmit stream0 <= 5)%N) by (simpl; unfold DefaultParallelXmit; lia).
  assert (H2 : 0 < parallelTime stream0)
    by (simpl; unfold DefaultParallelTime, Second; lia).
  assert (H3 : 0 <= now stream0) by (simpl; unfold t0, Second; lia).
  split; [exact H1|split; [exact H2|split; [exact H3|]]].
  exact (parallelTun_window stream0 5 H1 H2 H3).
Defined.

(** [stream0] with write delay on. *)
Definition stream_delay : UDPStream := SetWriteDelay stream0 true.

Lemma write_delay_flush_witness :
  exists s' n,
    write_loop stream_delay PSH [x61] = Some (ODone s' (n, None)) /\
    (writeDelay stream_delay = false -> msgss s' = []) /\
    (writeDelay stream_delay = true ->
     (WaitSnd (kcp s') < snd_wnd (kcp s'))%nat -> (WaitSnd (kcp s') < rmt_wnd (kcp s'))%nat ->
     msgss s' = msgss stream_delay /\ wire s' = wire stream_delay /\
     snd_buf (kcp s') = snd_buf (kcp stream_delay)).
Proof.
  do 2 eexists.
  assert (E : write_loop stream_delay PSH [x61] = Some (ODone ?[s'] (?[n], None)))
    by (vm_compute; reflexivity).
  split; [exact E|].
  exact (write_delay_flush stream_delay PSH [x61] _ _ E).
Defined.


